(** * cyBERT training notebook: label alignment, subword labels, label
      dictionary, padding and the evaluation loop

    A shallow embedding of the pure Python of
    [cybert_example_training_dns.ipynb] and the properties it satisfies.

    Python [str] values are modelled as [string]; a character is a code
    point below 256.  Python lists are [list]s, indices are [nat] where the
    source only produces non-negative ones ([enumerate], [len]) and [Z]
    where a negative number can occur.  A Python exception is an explicit
    result. *)

From Stdlib Require Import String Ascii List Bool Arith ZArith Lia.
Import ListNotations.

Local Open Scope string_scope.
Local Open Scope list_scope.
Local Open Scope nat_scope.

Set Implicit Arguments.

(* ================================================================== *)
(** ** Exceptions *)

Inductive exn : Type := IndexError | KeyError.

Inductive result (A : Type) : Type :=
| Ok (a : A)
| Raise (e : exn).

Arguments Ok {A} a.
Arguments Raise {A} e.

Definition bind {A B : Type} (m : result A) (k : A -> result B) : result B :=
  match m with
  | Ok a => k a
  | Raise e => Raise e
  end.

Notation "x <- m ;; k" := (bind m (fun x => k))
  (at level 61, m at next level, right associativity).

(** A [for] loop whose body may raise: the state is threaded from left to
    right and the first exception ends the loop. *)
Fixpoint for_each {A S : Type} (body : S -> A -> result S) (xs : list A)
  (st : S) : result S :=
  match xs with
  | [] => Ok st
  | x :: xs' => st' <- body st x ;; for_each body xs' st'
  end.

(** A list comprehension whose element expression may raise. *)
Fixpoint map_m {A B : Type} (f : A -> result B) (xs : list A)
  : result (list B) :=
  match xs with
  | [] => Ok []
  | x :: xs' => y <- f x ;; ys <- map_m f xs' ;; Ok (y :: ys)
  end.

(* ================================================================== *)
(** ** Python list primitives *)

Section PyList.
Context {A : Type}.

(** [l[i]] *)
Definition getitem (l : list A) (i : nat) : result A :=
  match nth_error l i with
  | Some x => Ok x
  | None => Raise IndexError
  end.

(** [l[i] = x] *)
Definition setitem (l : list A) (i : nat) (x : A) : result (list A) :=
  if i <? length l then Ok (firstn i l ++ x :: skipn (S i) l)
  else Raise IndexError.

(** [l[a:b]] for [0 <= a]: the bounds are clamped to the list. *)
Definition slice (l : list A) (a b : nat) : list A :=
  firstn (b - a) (skipn a l).

(** [l[a:b] = xs] for [0 <= a]: the bounds are clamped to the list, and a
    stop before the start is read as the start. *)
Definition slice_assign (l : list A) (a b : nat) (xs : list A) : list A :=
  firstn a l ++ xs ++ skipn (Nat.max a b) l.

(** [enumerate(l)] *)
Definition enumerate (l : list A) : list (nat * A) :=
  combine (seq 0 (length l)) l.

(** [[x] * n] for an integer [n]; a negative [n] gives the empty list. *)
Definition times (x : A) (n : Z) : list A := repeat x (Z.to_nat n).
End PyList.

(** [a == b] on lists of strings. *)
Fixpoint list_eqb (a b : list string) : bool :=
  match a, b with
  | [], [] => true
  | x :: a', y :: b' => String.eqb x y && list_eqb a' b'
  | _, _ => false
  end.

(* ================================================================== *)
(** ** Python string primitives *)

(** [string.punctuation]; the second character is the double quote. *)
Definition string_punctuation : string :=
  String "!" (String (ascii_of_nat 34) "#$%&'()*+,-./:;<=>?@[\]^_`{|}~").

Definition punctuation : list ascii := list_ascii_of_string string_punctuation.

(** [c.isspace()] for a code point below 256: tab, line feed, vertical tab,
    form feed, carriage return, the four separators 28 to 31, space, next
    line (133) and no-break space (160). *)
Definition isspace (c : ascii) : bool :=
  let n := nat_of_ascii c in
  ((9 <=? n) && (n <=? 13)) || ((28 <=? n) && (n <=? 32))
  || (n =? 133) || (n =? 160).

(** The word collected so far, if any, when a separator or the end of the
    text is reached. *)
Definition flush (cur : string) : list string :=
  match cur with
  | EmptyString => []
  | _ => [cur]
  end.

(** [text.split()]: the maximal runs of non-whitespace characters; [cur] is
    the run being read. *)
Fixpoint split_from (cur text : string) : list string :=
  match text with
  | EmptyString => flush cur
  | String c rest =>
      if isspace c then flush cur ++ split_from EmptyString rest
      else split_from (cur ++ String c EmptyString)%string rest
  end.

Definition split (text : string) : list string := split_from EmptyString text.

(** [text.replace(old, new)] for a one-character [old], the only use the
    notebook makes of it. *)
Fixpoint replace (old : ascii) (new text : string) : string :=
  match text with
  | EmptyString => EmptyString
  | String c rest =>
      if Ascii.eqb c old then (new ++ replace old new rest)%string
      else String c (replace old new rest)
  end.

(* ================================================================== *)
(** ** [punctuation_spliter] *)

Definition punctuation_spliter (text : string) : string :=
  fold_left
    (fun text symbol => replace symbol (" " ++ String symbol " ")%string text)
    punctuation text.

(* ================================================================== *)
(** ** The data frame

    [logs_df] is read from a CSV file by an external library.  A row gives
    the punctuation-split raw log ([logs_df.raw_preprocess[index_no]]) and,
    for a column name, the cell as a string
    ([str(logs_df[col][index_no])]). *)

Record row : Type := mk_row {
  raw_preprocess : string;
  cell : string -> string
}.

(* ================================================================== *)
(** ** [labeler] *)

(** [col_value in {'', '-', 'None', 'NaN'}] *)
Definition skipped (col_value : string) : bool :=
  existsb (String.eqb col_value) [""; "-"; "None"; "NaN"].

Section LabelColumn.
Variable col : string.
Variables raw_split sublist : list string.

(** The body of the inner [for ind in ...] loop; the state is
    [(label_list, match_count)]. *)
Definition mark (st : list string * nat) (ind : nat)
  : result (list string * nat) :=
  let '(label_list, match_count) := st in
  let sublist_len := length sublist in
  if (match_count <? 1)
     && list_eqb (slice raw_split ind (ind + sublist_len)) sublist
     && list_eqb (slice label_list ind (ind + sublist_len))
          (times "O" (Z.of_nat sublist_len))
  then
    label_list <- setitem label_list ind ("B-" ++ col)%string ;;
    Ok (slice_assign label_list (ind + 1) (ind + sublist_len)
          (times ("I-" ++ col)%string (Z.of_nat sublist_len - 1)), 1)
  else Ok st.

(** One step of the generator [(i for i, el in enumerate(raw_split) if
    el == sublist[0])] followed, for an index it yields, by the loop
    body.  [sublist[0]] is evaluated at every element of [raw_split]. *)
Definition scan_step (st : list string * nat) (item : nat * string)
  : result (list string * nat) :=
  let '(i, el) := item in
  first <- getitem sublist 0 ;;
  if String.eqb el first then mark st i else Ok st.
End LabelColumn.

(** The body of [for col in cols]. *)
Definition label_col (r : row) (raw_split label_list : list string)
  (col : string) : result (list string) :=
  let col_value := cell r col in
  if negb (skipped col_value) then
    let col_value := punctuation_spliter col_value in
    let sublist := split col_value in
    st <- for_each (scan_step col raw_split sublist) (enumerate raw_split)
            (label_list, 0) ;;
    Ok (fst st)
  else Ok label_list.

Definition labeler (logs_df : list row) (index_no : nat) (cols : list string)
  : result (list string) :=
  r <- getitem logs_df index_no ;;
  let raw_split := split (raw_preprocess r) in
  let label_list := times "O" (Z.of_nat (length raw_split)) in
  for_each (label_col r raw_split) cols label_list.

(** [labels], built by calling [labeler] on every index of the frame. *)
Definition all_labels (logs_df : list row) (cols : list string)
  : result (list (list string)) :=
  map_m (fun indx => labeler logs_df indx cols) (seq 0 (length logs_df)).

(* ================================================================== *)
(** ** The label columns *)

(** [l.remove(x)]: the list without the first element equal to [x];
    [None] stands for the [ValueError] raised when there is none. *)
Fixpoint list_remove (x : string) (l : list string) : option (list string) :=
  match l with
  | [] => None
  | y :: l' =>
      if String.eqb y x then Some l'
      else match list_remove x l' with
           | Some l'' => Some (y :: l'')
           | None => None
           end
  end.

(** [cols], from the column names of the frame
    ([logs_df.columns.values.tolist()]): the names without ['raw'] and
    ['raw_preprocess']. *)
Definition label_columns (columns : list string) : option (list string) :=
  match list_remove "raw" columns with
  | Some cols => list_remove "raw_preprocess" cols
  | None => None
  end.

(* ================================================================== *)
(** ** [subword_labeler] *)

(** [s * n] on strings. *)
Definition str_times (s : string) (n : Z) : string :=
  String.concat "" (repeat s (Z.to_nat n)).

(** The elements a string yields when iterated: its characters, each a
    string of length one. *)
Definition chars (s : string) : list string :=
  map (fun c => String c EmptyString) (list_ascii_of_string s).

Section Subword.
(** The external subword tokenizer, called on the words of one log with
    [add_special_tokens=False]: column 2 of the ['metadata'] tensor it
    returns, one integer per word. *)
Variable tokenizer : list string -> list Z.

(** The body of [for i, tag in enumerate(tags)]. *)
Definition tag_step (subword_counts : list Z) (temp_tags : list string)
  (item : nat * string) : result (list string) :=
  let '(i, tag) := item in
  let temp_tags := temp_tags ++ [tag] in
  n <- getitem subword_counts i ;;
  Ok (temp_tags ++ chars (str_times "X" n)).

Definition subword_labeler (log_list : list string)
  (label_list : list (list string)) : result (list (list string)) :=
  for_each
    (fun subword_labels '(log, tags) =>
       let words := split log in
       let subword_counts := tokenizer words in
       temp_tags <- for_each (tag_step subword_counts) (enumerate tags) [] ;;
       Ok (subword_labels ++ [temp_tags]))
    (combine log_list label_list) [].
End Subword.

(* ================================================================== *)
(** ** Dictionaries

    A Python [dict] keeps its keys in insertion order; assigning to a key
    that is present replaces the value in place. *)

Section Dict.
Context {K V : Type}.
Variable eqb : K -> K -> bool.

Definition dict : Type := list (K * V).

(** [d[k] = v] *)
Fixpoint dict_set (d : dict) (k : K) (v : V) : dict :=
  match d with
  | [] => [(k, v)]
  | (k', v') :: d' =>
      if eqb k' k then (k', v) :: d' else (k', v') :: dict_set d' k v
  end.

(** [d.get(k)] *)
Fixpoint dict_get (d : dict) (k : K) : option V :=
  match d with
  | [] => None
  | (k', v') :: d' => if eqb k' k then Some v' else dict_get d' k
  end.

(** [d[k]] *)
Definition dict_getitem (d : dict) (k : K) : result V :=
  match dict_get d k with
  | Some v => Ok v
  | None => Raise KeyError
  end.

(** [d.keys()] *)
Definition keys (d : dict) : list K := map fst d.
End Dict.

Arguments dict : clear implicits.

(* ================================================================== *)
(** ** The label dictionary *)

(** [list(set(xs))]: some listing of the distinct elements of [xs]; the
    order is not specified. *)
Definition list_of_set (xs label_values : list string) : Prop :=
  NoDup label_values /\ forall x, In x label_values <-> In x xs.

(** [label2id], from the listing [label_values] of the set of labels. *)
Definition label2id (label_values : list string) : dict string Z :=
  let label_values := slice_assign label_values 0 0 ["[PAD]"] in
  let label2id :=
    fold_left (fun d '(i, t) => dict_set String.eqb d t (Z.of_nat i))
      (enumerate label_values) [] in
  dict_set String.eqb label2id "X" (-100)%Z.

(** [id2label = {label2id[key] : key for key in label2id.keys()}] *)
Definition id2label (label2id : dict string Z) : result (dict Z string) :=
  for_each
    (fun d key => v <- dict_getitem String.eqb label2id key ;;
                  Ok (dict_set Z.eqb d v key))
    (keys label2id) [].

(* ================================================================== *)
(** ** Padding *)

(** [pad] extends a list it is given; the notebook only passes it the fresh
    list [x[:512]], so the extended list is returned as a value. *)
Definition pad {A : Type} (l : list A) (content : A) (width : Z) : list A :=
  l ++ times content (width - Z.of_nat (length l)).

Definition padded_labels (subword_labels : list (list string))
  : list (list string) :=
  map (fun x => pad (slice x 0 512) "[PAD]" 512%Z) subword_labels.

(** [label2id.get(l)] is [None] for a label that is not a key. *)
Definition int_labels (label2id : dict string Z)
  (padded_labels : list (list string)) : list (list (option Z)) :=
  map (fun lab => map (fun l => dict_get String.eqb label2id l) lab)
    padded_labels.

(* ================================================================== *)
(** ** The evaluation loop *)

(** One batch of the validation loader with the model's answer for it:
    [logits] is the array after [argmax], one predicted id per position. *)
Record batch : Type := mk_batch {
  input_mask : list (list Z);
  label_ids : list (list Z);
  logits : list (list Z)
}.

Section Evaluation.
Variable id2label : dict Z string.

(** [for j, m in enumerate(mask)], on the items still to visit; the state
    is [(temp_1, temp_2)].  A mask value of zero leaves the loop. *)
Fixpoint compare_tokens (label_ids logits : list (list Z)) (i : nat)
  (items : list (nat * Z)) (temps : list string * list string)
  : result (list string * list string) :=
  match items with
  | [] => Ok temps
  | (j, m) :: items' =>
      if negb (Z.eqb m 0) then
        label_row <- getitem label_ids i ;;
        label_id <- getitem label_row j ;;
        label <- dict_getitem Z.eqb id2label label_id ;;
        if negb (String.eqb label "X") && negb (String.eqb label "[PAD]")
        then
          logit_row <- getitem logits i ;;
          logit <- getitem logit_row j ;;
          pred <- dict_getitem Z.eqb id2label logit ;;
          compare_tokens label_ids logits i items'
            (fst temps ++ [label], snd temps ++ [pred])
        else compare_tokens label_ids logits i items' temps
      else Ok temps
  end.

(** The body of [for step, batch in enumerate(val_dataloader)]; the state
    is [(y_true, y_pred)]. *)
Definition eval_batch (ys : list (list string) * list (list string))
  (b : batch) : result (list (list string) * list (list string)) :=
  for_each
    (fun ys '(i, mask) =>
       temps <- compare_tokens (label_ids b) (logits b) i (enumerate mask)
                  ([], []) ;;
       Ok (fst ys ++ [fst temps], snd ys ++ [snd temps]))
    (enumerate (input_mask b)) ys.

Definition evaluation (batches : list batch)
  : result (list (list string) * list (list string)) :=
  for_each eval_batch batches ([], []).
End Evaluation.

(* ================================================================== *)
(** * Vocabulary of the properties *)

(** ** Punctuation splitting *)

Definition mem (c : ascii) (syms : list ascii) : bool :=
  existsb (Ascii.eqb c) syms.

(** The text with every character of [syms] set between two spaces: what
    the replacements made so far have produced. *)
Fixpoint spread (syms : list ascii) (text : string) : string :=
  match text with
  | EmptyString => EmptyString
  | String c rest =>
      if mem c syms
      then String " " (String c (String " " (spread syms rest)))
      else String c (spread syms rest)
  end.

(** Every symbol is new when its turn comes, and none is the space. *)
Fixpoint fresh_symbols (done syms : list ascii) : bool :=
  match syms with
  | [] => true
  | s :: syms' =>
      negb (mem s done) && negb (Ascii.eqb s " ")
      && fresh_symbols (done ++ [s]) syms'
  end.

(** The non-whitespace characters of a text, in order. *)
Definition non_space (text : string) : list ascii :=
  filter (fun c => negb (isspace c)) (list_ascii_of_string text).

(** A token the split may produce: one punctuation character, or a word
    with none. *)
Definition plain (tok : string) : Prop :=
  forall c, In c (list_ascii_of_string tok) -> ~ In c punctuation.

Definition token_ok (tok : string) : Prop :=
  (exists c, In c punctuation /\ tok = String c EmptyString) \/ plain tok.

(** ** Label alignment *)

(** The two labels of a column: ['B-'+col] and ['I-'+col]. *)
Definition begin_tag (col : string) : string := ("B-" ++ col)%string.
Definition inside_tag (col : string) : string := ("I-" ++ col)%string.

(** The tokens of a column's value: [sublist] in the source. *)
Definition sublist_of (r : row) (col : string) : list string :=
  split (punctuation_spliter (cell r col)).

Arguments punctuation_spliter : simpl never.
Arguments sublist_of : simpl never.

(** [label_list] after the two assignments of the loop body at [ind], for
    a value of [n] tokens: ['B-'+col] at [ind], ['I-'+col] at the [n - 1]
    positions that follow, the rest as it was. *)
Definition write_span (label_list : list string) (ind n : nat) (col : string)
  : list string :=
  firstn ind label_list
  ++ begin_tag col :: repeat (inside_tag col) (n - 1)
  ++ skipn (ind + n) label_list.

(** The value occurs in the raw log at token [ind] and none of its
    positions is labelled yet. *)
Definition free_at (raw_split sublist label_list : list string) (ind : nat)
  : Prop :=
  ind < length raw_split /\
  slice raw_split ind (ind + length sublist) = sublist /\
  slice label_list ind (ind + length sublist) = repeat "O" (length sublist).

(** The last two tests of the loop body. *)
Definition free_atb (raw_split sublist label_list : list string) (ind : nat)
  : bool :=
  list_eqb (slice raw_split ind (ind + length sublist)) sublist
  && list_eqb (slice label_list ind (ind + length sublist))
       (times "O" (Z.of_nat (length sublist))).

(** What [label_col] does, case by case. *)
Inductive outcome (r : row) (raw_split label_list : list string)
  (col : string) : result (list string) -> Prop :=
| skipped_column :
    skipped (cell r col) = true ->
    outcome r raw_split label_list col (Ok label_list)
| blank_value :
    skipped (cell r col) = false ->
    sublist_of r col = [] ->
    raw_split <> [] ->
    outcome r raw_split label_list col (Raise IndexError)
| no_occurrence :
    skipped (cell r col) = false ->
    (sublist_of r col = [] -> raw_split = []) ->
    (forall ind, ~ free_at raw_split (sublist_of r col) label_list ind) ->
    outcome r raw_split label_list col (Ok label_list)
| marked (ind : nat) :
    skipped (cell r col) = false ->
    sublist_of r col <> [] ->
    free_at raw_split (sublist_of r col) label_list ind ->
    (forall j, j < ind ->
       ~ free_at raw_split (sublist_of r col) label_list j) ->
    outcome r raw_split label_list col
      (Ok (write_span label_list ind (length (sublist_of r col)) col)).

(** Position [p] lies in a span of column [col] that starts at [s]: the
    value of the column occurs in the raw log at [s], position [s] carries
    ['B-'+col] and the other positions of the occurrence ['I-'+col]. *)
Definition span_at (r : row) (raw_split labels : list string) (col : string)
  (s p : nat) : Prop :=
  skipped (cell r col) = false /\
  sublist_of r col <> [] /\
  s <= p < s + length (sublist_of r col) /\
  slice raw_split s (s + length (sublist_of r col)) = sublist_of r col /\
  nth_error labels s = Some (begin_tag col) /\
  forall q, s < q < s + length (sublist_of r col) ->
            nth_error labels q = Some (inside_tag col).

(** The invariant of the loop over the columns. *)
Definition tagged (r : row) (raw_split cols labels : list string) : Prop :=
  length labels = length raw_split /\
  (forall p lab, nth_error labels p = Some lab ->
     lab = "O" \/
     exists col s, In col cols /\ span_at r raw_split labels col s p) /\
  (NoDup cols -> forall col p q,
     nth_error labels p = Some (begin_tag col) ->
     nth_error labels q = Some (begin_tag col) -> p = q).

(** ** Subword labels *)

(** A tag followed by one ['X'] for each of the [n] pieces reported for
    its word, for every word in turn. *)
Definition with_pieces (tags : list string) (counts : list Z) : list string :=
  flat_map (fun '(tag, n) => tag :: repeat "X" (Z.to_nat n))
    (combine tags counts).

Definition sum_Z (counts : list Z) : Z := fold_right Z.add 0%Z counts.

Definition not_X (tag : string) : bool := negb (String.eqb tag "X").

(** The assumptions on one log and its tags: one tag and one reported
    count per word. *)
Definition aligned (tokenizer : list string -> list Z) (log : string)
  (tags : list string) : Prop :=
  length tags = length (split log) /\
  length (tokenizer (split log)) = length (split log).

(** ** The label dictionary *)

Definition swap (kv : string * Z) : Z * string := (snd kv, fst kv).

(** The items of [label2id] when the labels are distinct and none of them
    is ['[PAD]'] or ['X']. *)
Definition label_items (label_values : list string) : dict string Z :=
  combine ("[PAD]" :: label_values)
    (map Z.of_nat (seq 0 (S (length label_values))))
  ++ [("X", (-100)%Z)].

(** ** The evaluation loop *)

(** The mask up to its first zero. *)
Fixpoint live_prefix (mask : list Z) : list Z :=
  match mask with
  | [] => []
  | m :: mask' => if Z.eqb m 0 then [] else m :: live_prefix mask'
  end.

(** Every row cut where the mask of that row has its first zero. *)
Definition visible_rows (masks rows : list (list Z)) : list (list Z) :=
  map (fun '(mask, row) => firstn (length (live_prefix mask)) row)
    (combine masks rows).

(** The batch with everything from the first zero of each mask on removed:
    the mask itself, the label ids and the predictions. *)
Definition visible (b : batch) : batch :=
  mk_batch (map live_prefix (input_mask b))
    (visible_rows (input_mask b) (label_ids b))
    (visible_rows (input_mask b) (logits b)).

(** [rows[i][j]] *)
Definition cell_at (rows : list (list Z)) (i j : nat) : result Z :=
  row <- getitem rows i ;; getitem row j.

(** What one position with a non-zero mask value does to
    [(temp_1, temp_2)]. *)
Definition token_step (id2label : dict Z string)
  (label_ids logits : list (list Z)) (i j : nat)
  (temps : list string * list string) : result (list string * list string) :=
  label_id <- cell_at label_ids i j ;;
  label <- dict_getitem Z.eqb id2label label_id ;;
  if negb (String.eqb label "X") && negb (String.eqb label "[PAD]") then
    logit <- cell_at logits i j ;;
    pred <- dict_getitem Z.eqb id2label logit ;;
    Ok (fst temps ++ [label], snd temps ++ [pred])
  else Ok temps.

(** What the loop keeps true of [(temp_1, temp_2)]. *)
Definition clean (temps : list string * list string) : Prop :=
  ~ In "X" (fst temps) /\ ~ In "[PAD]" (fst temps) /\
  length (snd temps) = length (fst temps).

(** One pair of sequences in [(y_true, y_pred)]. *)
Definition comparable (temp_1 temp_2 : list string) : Prop :=
  ~ In "X" temp_1 /\ ~ In "[PAD]" temp_1 /\ length temp_2 = length temp_1.

(** ** Further vocabulary *)

(** The number of punctuation characters of a text. *)
Definition count_punctuation (text : string) : nat :=
  length (filter (fun c => mem c punctuation) (list_ascii_of_string text)).

(** The label of an id; the empty string stands for an id that is not a
    key of [id2label]. *)
Definition label_name (id2label : dict Z string) (id : Z) : string :=
  match dict_get Z.eqb id2label id with
  | Some label => label
  | None => EmptyString
  end.

(** The test on the true label in the evaluation loop. *)
Definition kept (label : string) : bool :=
  negb (String.eqb label "X") && negb (String.eqb label "[PAD]").

(** The positions of a row that the evaluation loop compares: those before
    the first zero of the mask whose true label is neither ['X'] nor
    ['[PAD]']. *)
Definition compared (id2label : dict Z string) (mask label_row : list Z)
  : list nat :=
  filter (fun j => kept (label_name id2label (nth j label_row 0%Z)))
    (seq 0 (length (live_prefix mask))).

(** The labels of the ids a row holds at some positions. *)
Definition names_at (id2label : dict Z string) (row : list Z)
  (positions : list nat) : list string :=
  map (fun j => label_name id2label (nth j row 0%Z)) positions.

(** ** Sample data *)

(** A frame of one DNS log line. *)
Definition sample_cell (col : string) : string :=
  if String.eqb col "time" then "15:42:01"
  else if String.eqb col "name" then "example.com"
  else if String.eqb col "type" then "A"
  else "-".

Definition sample_df : list row :=
  [mk_row "15 : 42 : 01 query example . com A" sample_cell].

Definition sample_cols : list string := ["time"; "name"; "type"; "flags"].

Definition sample_labels : list string :=
  ["B-time"; "I-time"; "I-time"; "I-time"; "I-time"; "O";
   "B-name"; "I-name"; "I-name"; "B-type"].

(** A stand-in for the tokenizer: the number of characters of a word after
    the first. *)
Definition sample_tokenizer (words : list string) : list Z :=
  map (fun w => Z.of_nat (String.length w) - 1)%Z words.

Definition sample_id2label : dict Z string :=
  [(0%Z, "[PAD]"); (1%Z, "O"); (2%Z, "B-t"); ((-100)%Z, "X")].

(** One batch of one row; the mask has its first zero at position 3, and
    the prediction 7 after it is not an id. *)
Definition sample_batches : list batch :=
  [mk_batch [[1; 1; 1; 0; 1]%Z] [[1; -100; 2; 0; 1]%Z] [[2; 2; 1; 1; 7]%Z]].

(* ================================================================== *)
(** * Properties *)

(** ** The error monad and the list primitives *)

Lemma bind_ok {A B : Type} (m : result A) (k : A -> result B) (b : B) :
  (x <- m ;; k x) = Ok b -> exists a, m = Ok a /\ k a = Ok b.
Proof.
  destruct m as [a|e]; simpl; intros H.
  - exists a. split; [reflexivity | exact H].
  - discriminate H.
Qed.

Lemma for_each_app {A S : Type} (body : S -> A -> result S)
  (xs ys : list A) (st : S) :
  for_each body (xs ++ ys) st = (st' <- for_each body xs st ;; for_each body ys st').
Proof.
  revert st. induction xs as [|x xs IH]; intros st; simpl.
  - reflexivity.
  - destruct (body st x) as [st'|e]; simpl; [apply IH | reflexivity].
Qed.

Lemma list_eqb_eq (a b : list string) : list_eqb a b = true <-> a = b.
Proof.
  revert b. induction a as [|x a IH]; intros [|y b]; simpl;
    try (split; [discriminate | discriminate]); try tauto.
  rewrite andb_true_iff, String.eqb_eq, IH.
  split; [intros [-> ->]; reflexivity | intros H; inversion H; auto].
Qed.

Lemma times_of_nat {A : Type} (x : A) (n : nat) :
  times x (Z.of_nat n) = repeat x n.
Proof. unfold times. now rewrite Nat2Z.id. Qed.

Lemma times_pred {A : Type} (x : A) (n : nat) :
  times x (Z.of_nat n - 1) = repeat x (n - 1).
Proof. unfold times. f_equal. lia. Qed.

(* ================================================================== *)
(** ** [punctuation_spliter] *)

Lemma mem_In (c : ascii) (syms : list ascii) : mem c syms = true <-> In c syms.
Proof.
  unfold mem. rewrite existsb_exists. split.
  - intros (x & Hx & E). apply Ascii.eqb_eq in E. now subst.
  - intros H. exists c. split; [exact H | apply Ascii.eqb_refl].
Qed.

Lemma mem_snoc (c s : ascii) (syms : list ascii) :
  mem c (syms ++ [s]) = mem c syms || Ascii.eqb c s.
Proof. unfold mem. rewrite existsb_app. simpl. now rewrite orb_false_r. Qed.

Lemma spread_nil (text : string) : spread [] text = text.
Proof. induction text as [|c rest IH]; simpl; [|rewrite IH]; reflexivity. Qed.

Lemma replace_spread (done : list ascii) (s : ascii) (text : string) :
  mem s done = false -> Ascii.eqb s " " = false ->
  replace s (" " ++ String s " ")%string (spread done text)
  = spread (done ++ [s]) text.
Proof.
  intros Hs Hsp. assert (Hsp' : Ascii.eqb " " s = false)
    by (now rewrite Ascii.eqb_sym).
  induction text as [|c rest IH]; [reflexivity|].
  cbn [spread]. rewrite mem_snoc.
  destruct (mem c done) eqn:Hc; cbn [orb replace].
  - rewrite Hsp'. destruct (Ascii.eqb c s) eqn:E.
    + apply Ascii.eqb_eq in E. subst c. congruence.
    + now rewrite IH.
  - destruct (Ascii.eqb c s) eqn:E.
    + apply Ascii.eqb_eq in E. subst c. now rewrite IH.
    + now rewrite IH.
Qed.

Lemma fold_replace_spread (syms done : list ascii) (text : string) :
  fresh_symbols done syms = true ->
  fold_left
    (fun text symbol => replace symbol (" " ++ String symbol " ")%string text)
    syms (spread done text)
  = spread (done ++ syms) text.
Proof.
  revert done. induction syms as [|s syms IH]; intros done H; simpl in *.
  - now rewrite app_nil_r.
  - apply andb_true_iff in H as [H H3]. apply andb_true_iff in H as [H1 H2].
    apply negb_true_iff in H1, H2.
    rewrite replace_spread by assumption. rewrite IH by assumption.
    now rewrite <- app_assoc.
Qed.

Lemma punctuation_spliter_spread (text : string) :
  punctuation_spliter text = spread punctuation text.
Proof.
  unfold punctuation_spliter.
  rewrite <- (spread_nil text) at 1.
  now rewrite fold_replace_spread.
Qed.

Lemma punctuation_not_space (c : ascii) :
  mem c punctuation = true -> isspace c = false.
Proof.
  intros H. apply mem_In in H.
  repeat (destruct H as [<-|H]; [reflexivity|]). destruct H.
Qed.

Lemma non_space_spread (text : string) :
  non_space (spread punctuation text) = non_space text.
Proof.
  unfold non_space. induction text as [|c rest IH]; [reflexivity|].
  cbn [spread]. destruct (mem c punctuation) eqn:Hc;
    cbn [list_ascii_of_string filter]; rewrite IH.
  - change (isspace " ") with true. cbn [negb]. reflexivity.
  - reflexivity.
Qed.

Lemma list_ascii_snoc (cur : string) (c : ascii) :
  list_ascii_of_string (cur ++ String c EmptyString)
  = list_ascii_of_string cur ++ [c].
Proof. induction cur as [|d cur IH]; simpl; [|rewrite IH]; reflexivity. Qed.

Lemma plain_snoc (cur : string) (c : ascii) :
  plain cur -> mem c punctuation = false ->
  plain (cur ++ String c EmptyString).
Proof.
  intros Hcur Hc d Hd. rewrite list_ascii_snoc in Hd.
  apply in_app_or in Hd as [Hd|[<-|[]]]; [now apply Hcur|].
  intros Hin. apply mem_In in Hin. congruence.
Qed.

Lemma flush_ok (cur : string) : plain cur -> Forall token_ok (flush cur).
Proof.
  intros H. destruct cur; simpl; constructor; [now right | constructor].
Qed.

Lemma split_from_spread_ok (text cur : string) :
  plain cur -> Forall token_ok (split_from cur (spread punctuation text)).
Proof.
  revert cur. induction text as [|c rest IH]; intros cur Hcur.
  - simpl. now apply flush_ok.
  - cbn [spread]. destruct (mem c punctuation) eqn:Hc.
    + cbn [split_from]. change (isspace " ") with true. cbn iota.
      rewrite (punctuation_not_space _ Hc). cbn [append].
      change (isspace " ") with true. cbn iota. cbn [flush].
      apply Forall_app. split; [now apply flush_ok|].
      constructor.
      * left. exists c. split; [now apply mem_In | reflexivity].
      * apply IH. intros d [].
    + cbn [split_from]. destruct (isspace c).
      * apply Forall_app. split; [now apply flush_ok|].
        apply IH. intros d [].
      * apply IH. now apply plain_snoc.
Qed.

(** C5.  Every whitespace-split token of [punctuation_spliter text] is a
    single character of [string.punctuation] or contains none of them, and
    the non-whitespace characters of the result are, in order, those of the
    input. *)
Theorem punctuation_spliter_tokens (text : string) :
  (forall tok, In tok (split (punctuation_spliter text)) ->
     (exists c, In c punctuation /\ tok = String c EmptyString) \/
     (forall c, In c (list_ascii_of_string tok) -> ~ In c punctuation)) /\
  non_space (punctuation_spliter text) = non_space text.
Proof.
  rewrite punctuation_spliter_spread. split.
  - intros tok Htok.
    pose proof (split_from_spread_ok text (cur := EmptyString)) as H.
    rewrite Forall_forall in H. apply (H (fun d (F : False) => match F with end) tok Htok).
  - apply non_space_spread.
Qed.

(* ================================================================== *)
(** ** Slices *)

Section SliceFacts.
Context {A : Type}.
Implicit Types (l xs : list A) (a n p : nat).

Lemma nth_error_slice l a n p :
  nth_error (slice l a (a + n)) p
  = if p <? n then nth_error l (a + p) else None.
Proof.
  unfold slice. replace (a + n - a) with n by lia.
  now rewrite nth_error_firstn, nth_error_skipn.
Qed.

Lemma slice_within l a n xs :
  slice l a (a + n) = xs -> length xs = n -> 0 < n -> a + n <= length l.
Proof.
  intros E Hlen Hn. rewrite <- E in Hlen. unfold slice in Hlen.
  rewrite length_firstn, length_skipn in Hlen. lia.
Qed.

Lemma slice_repeat_nth l a n (x : A) p :
  slice l a (a + n) = repeat x n -> a <= p < a + n ->
  nth_error l p = Some x.
Proof.
  intros E Hp.
  pose proof (nth_error_slice l a n (p - a)) as H.
  rewrite E in H. destruct (Nat.ltb_spec (p - a) n); [|lia].
  rewrite nth_error_repeat in H by lia.
  replace (a + (p - a)) with p in H by lia. now symmetry.
Qed.

Lemma setitem_ok l a (x : A) :
  a < length l -> setitem l a x = Ok (firstn a l ++ x :: skipn (S a) l).
Proof.
  intros H. unfold setitem. now destruct (Nat.ltb_spec a (length l)); [|lia].
Qed.
End SliceFacts.

(* ================================================================== *)
(** ** One column of [labeler] *)

Section WriteSpan.
Variables (l : list string) (ind n : nat) (col : string).
Hypothesis Hn : 0 < n.
Hypothesis Hfit : ind + n <= length l.

Lemma length_write_span : length (write_span l ind n col) = length l.
Proof.
  unfold write_span. rewrite length_app. cbn [length].
  rewrite length_app, length_firstn, repeat_length, length_skipn. lia.
Qed.

Lemma nth_error_write_span p :
  nth_error (write_span l ind n col) p
  = if p <? ind then nth_error l p
    else if p =? ind then Some (begin_tag col)
    else if p <? ind + n then Some (inside_tag col)
    else nth_error l p.
Proof.
  unfold write_span.
  assert (Hlen : length (firstn ind l) = ind)
    by (rewrite length_firstn; lia).
  destruct (Nat.ltb_spec p ind) as [Hp|Hp].
  - rewrite nth_error_app1 by lia.
    rewrite nth_error_firstn. now destruct (Nat.ltb_spec p ind); [|lia].
  - rewrite nth_error_app2 by lia. rewrite Hlen.
    destruct (Nat.eqb_spec p ind) as [->|Hne].
    + now rewrite Nat.sub_diag.
    + destruct (p - ind) as [|k] eqn:Hk; [lia|]. cbn [nth_error].
      destruct (Nat.ltb_spec p (ind + n)) as [Hq|Hq].
      * rewrite nth_error_app1 by (rewrite repeat_length; lia).
        apply nth_error_repeat. lia.
      * rewrite nth_error_app2 by (rewrite repeat_length; lia).
        rewrite repeat_length, nth_error_skipn. f_equal. lia.
Qed.

Lemma mark_writes :
  (l1 <- setitem l ind ("B-" ++ col)%string ;;
   Ok (slice_assign l1 (ind + 1) (ind + n)
         (times ("I-" ++ col)%string (Z.of_nat n - 1)), 1))
  = Ok (write_span l ind n col, 1).
Proof.
  change ("B-" ++ col)%string with (begin_tag col).
  change ("I-" ++ col)%string with (inside_tag col).
  rewrite setitem_ok by lia. cbn [bind]. do 2 f_equal.
  unfold slice_assign, write_span. rewrite times_pred.
  assert (Hlen : length (firstn ind l) = ind)
    by (rewrite length_firstn; lia).
  replace (Nat.max (ind + 1) (ind + n)) with (ind + n) by lia.
  rewrite firstn_app, skipn_app, Hlen.
  rewrite (firstn_all2 (n := ind + 1)) by lia.
  rewrite (skipn_all2 (n := ind + n)) by lia.
  replace (ind + 1 - ind) with 1 by lia.
  replace (ind + n - ind) with (S (n - 1)) by lia.
  change (firstn 1 (begin_tag col :: skipn (S ind) l))
    with [begin_tag col].
  change (skipn (S (n - 1)) (begin_tag col :: skipn (S ind) l))
    with (skipn (n - 1) (skipn (S ind) l)).
  cbn [app]. rewrite skipn_skipn.
  rewrite <- app_assoc. cbn [app].
  now replace (n - 1 + S ind) with (ind + n) by lia.
Qed.
End WriteSpan.

Lemma skipn_nth_error {A : Type} (l : list A) (a : nat) (x : A) :
  nth_error l a = Some x -> skipn a l = x :: skipn (S a) l.
Proof.
  revert l. induction a as [|a IH]; intros [|y l] H; try discriminate H.
  - inversion H. reflexivity.
  - apply (IH l H).
Qed.

Lemma in_combine_seq {A : Type} (l : list A) (k i : nat) (x : A) :
  In (i, x) (combine (seq k (length l)) l) ->
  k <= i /\ nth_error l (i - k) = Some x.
Proof.
  revert k. induction l as [|y l IH]; intros k H; [destruct H|].
  cbn [length seq combine] in H. destruct H as [E|H].
  - inversion E. subst. rewrite Nat.sub_diag. split; [lia | reflexivity].
  - apply IH in H as [Hk Hx]. split; [lia|].
    replace (i - k) with (S (i - S k)) by lia. exact Hx.
Qed.

Lemma in_enumerate {A : Type} (l : list A) (i : nat) (x : A) :
  In (i, x) (enumerate l) -> nth_error l i = Some x.
Proof.
  intros H. apply in_combine_seq in H as [_ H].
  now rewrite Nat.sub_0_r in H.
Qed.

(** [find] on an enumeration returns the least index that passes. *)
Lemma find_combine_seq {A : Type} (P : nat -> bool) (l : list A) (k : nat) :
  match find (fun it => P (fst it)) (combine (seq k (length l)) l) with
  | Some (ind, _) =>
      k <= ind < k + length l /\ P ind = true /\
      forall j, k <= j < ind -> P j = false
  | None => forall j, k <= j < k + length l -> P j = false
  end.
Proof.
  revert k. induction l as [|y l IH]; intros k.
  - cbn. intros j Hj. lia.
  - cbn [length seq combine find fst]. destruct (P k) eqn:Hk.
    + cbn [length]. repeat split; [lia | lia | exact Hk | intros j Hj; lia].
    + specialize (IH (S k)).
      destruct (find _ (combine (seq (S k) (length l)) l)) as [[ind el]|].
      * destruct IH as (Hi & HP & Hmin). cbn [length].
        repeat split; [lia | lia | exact HP |].
        intros j Hj. destruct (Nat.eq_dec j k) as [->|Hne];
          [exact Hk | apply Hmin; lia].
      * intros j Hj. cbn [length] in Hj.
        destruct (Nat.eq_dec j k) as [->|Hne]; [exact Hk | apply IH; lia].
Qed.

Lemma free_atb_true (raw_split sublist l : list string) (ind : nat) :
  free_atb raw_split sublist l ind = true <->
  slice raw_split ind (ind + length sublist) = sublist /\
  slice l ind (ind + length sublist) = repeat "O" (length sublist).
Proof.
  unfold free_atb. now rewrite andb_true_iff, !list_eqb_eq, times_of_nat.
Qed.

Section Scan.
Variables (col : string) (raw_split : list string).
Variables (first : string) (rest : list string).

Let sublist : list string := first :: rest.

(** Once [match_count] is 1 no candidate is marked. *)
Lemma scan_done (items : list (nat * string)) (l : list string) :
  for_each (scan_step col raw_split sublist) items (l, 1) = Ok (l, 1).
Proof.
  induction items as [|[i el] items IH]; [reflexivity|].
  cbn [for_each scan_step getitem nth_error sublist bind].
  destruct (String.eqb el first); cbn [mark Nat.ltb Nat.leb andb bind];
    exact IH.
Qed.

(** Until then the first candidate at which the value occurs on free
    positions is marked. *)
Lemma scan_search (items : list (nat * string)) (l : list string) :
  (forall i el, In (i, el) items -> nth_error raw_split i = Some el) ->
  for_each (scan_step col raw_split sublist) items (l, 0)
  = match find (fun it => free_atb raw_split sublist l (fst it)) items with
    | Some (ind, _) => Ok (write_span l ind (length sublist) col, 1)
    | None => Ok (l, 0)
    end.
Proof.
  induction items as [|[i el] items IH]; intros Hitems; [reflexivity|].
  assert (Hi : nth_error raw_split i = Some el)
    by (apply Hitems; now left).
  assert (IH' := IH (fun j x H => Hitems j x (or_intror H))). clear IH.
  cbn [for_each scan_step getitem nth_error sublist bind find fst].
  fold sublist.
  destruct (String.eqb el first) eqn:Hel.
  - unfold mark. change (0 <? 1) with true. cbn [andb].
    fold (free_atb raw_split sublist l i).
    destruct (free_atb raw_split sublist l i) eqn:Hfree.
    + apply free_atb_true in Hfree as [_ HO].
      assert (Hfit : i + length sublist <= length l).
      { apply (slice_within _ _ HO); [apply repeat_length|].
        unfold sublist. cbn [length]. lia. }
      rewrite mark_writes by (unfold sublist; cbn [length]; lia || exact Hfit).
      cbn [bind]. apply scan_done.
    + cbn [bind]. exact IH'.
  - assert (Hfree : free_atb raw_split sublist l i = false).
    { unfold free_atb, slice.
      replace (i + length sublist - i) with (S (length rest))
        by (unfold sublist; cbn [length]; lia).
      rewrite (skipn_nth_error _ _ Hi). cbn [firstn list_eqb sublist].
      now rewrite Hel. }
    rewrite Hfree. exact IH'.
Qed.
End Scan.

Lemma label_col_outcome (r : row) (raw_split label_list : list string)
  (col : string) :
  outcome r raw_split label_list col (label_col r raw_split label_list col).
Proof.
  unfold label_col. destruct (skipped (cell r col)) eqn:Hskip; cbn [negb].
  { now apply skipped_column. }
  fold (sublist_of r col).
  destruct (sublist_of r col) as [|first rest] eqn:Hsub.
  - destruct raw_split as [|x raw'] eqn:Hraw.
    + cbn. apply no_occurrence; [exact Hskip | reflexivity |].
      intros ind (Hind & _). cbn in Hind. lia.
    + cbn. apply blank_value; congruence.
  - rewrite scan_search by (intros i el; apply in_enumerate).
    pose proof (find_combine_seq
                  (free_atb raw_split (first :: rest) label_list)
                  raw_split 0) as Hfind.
    unfold enumerate.
    destruct (find _ (combine (seq 0 (length raw_split)) raw_split))
      as [[ind el]|].
    + destruct Hfind as (Hind & Hfree & Hmin). cbn [bind fst].
      rewrite <- Hsub. apply marked.
      * exact Hskip.
      * congruence.
      * rewrite Hsub. split; [lia | now apply free_atb_true].
      * intros j Hj (_ & Hfj). rewrite Hsub in Hfj.
        apply free_atb_true in Hfj. rewrite Hmin in Hfj by lia.
        discriminate Hfj.
    + cbn [bind fst]. apply no_occurrence.
      * exact Hskip.
      * rewrite Hsub. discriminate.
      * intros ind (Hind & Hfi). rewrite Hsub in Hfi.
        apply free_atb_true in Hfi. rewrite Hfind in Hfi by lia.
        discriminate Hfi.
Qed.

(** Facts about a free occurrence of a value with at least one token. *)
Lemma free_at_fits (raw_split sublist l : list string) (ind : nat) :
  sublist <> [] -> free_at raw_split sublist l ind ->
  0 < length sublist /\ ind + length sublist <= length l /\
  ind + length sublist <= length raw_split /\
  forall p, ind <= p < ind + length sublist -> nth_error l p = Some "O".
Proof.
  intros Hne (_ & Hraw & HO).
  assert (Hn : 0 < length sublist)
    by (destruct sublist; [congruence | cbn; lia]).
  repeat split.
  - exact Hn.
  - apply (slice_within _ _ HO); [apply repeat_length | exact Hn].
  - apply (slice_within _ _ Hraw); [reflexivity | exact Hn].
  - intros p Hp. eapply slice_repeat_nth; eassumption.
Qed.

Lemma begin_tag_inj (c1 c2 : string) : begin_tag c1 = begin_tag c2 -> c1 = c2.
Proof. unfold begin_tag. cbn. intros H. now inversion H. Qed.

Lemma inside_tag_inj (c1 c2 : string) :
  inside_tag c1 = inside_tag c2 -> c1 = c2.
Proof. unfold inside_tag. cbn. intros H. now inversion H. Qed.

Lemma begin_not_inside (c1 c2 : string) : begin_tag c1 <> inside_tag c2.
Proof. unfold begin_tag, inside_tag. cbn. intros H. inversion H. Qed.

Lemma begin_not_O (c : string) : begin_tag c <> "O".
Proof. unfold begin_tag. cbn. intros H. inversion H. Qed.

Lemma inside_not_O (c : string) : inside_tag c <> "O".
Proof. unfold inside_tag. cbn. intros H. inversion H. Qed.

Lemma span_at_label (r : row) (raw_split labels : list string)
  (col : string) (s p : nat) :
  span_at r raw_split labels col s p ->
  nth_error labels p
  = Some (if p =? s then begin_tag col else inside_tag col).
Proof.
  intros (_ & _ & Hp & _ & HB & HI).
  destruct (Nat.eqb_spec p s) as [->|Hne]; [exact HB | apply HI; lia].
Qed.

Lemma tagged_init (r : row) (raw_split : list string) :
  tagged r raw_split [] (times "O" (Z.of_nat (length raw_split))).
Proof.
  rewrite times_of_nat. repeat split.
  - apply repeat_length.
  - intros p lab H. left. apply nth_error_In, repeat_spec in H. exact H.
  - intros _ col p q Hp _. apply nth_error_In, repeat_spec in Hp.
    now apply begin_not_O in Hp.
Qed.

Section MarkedStep.
Variables (l : list string) (ind n : nat) (col : string).
Hypothesis Hn : 0 < n.
Hypothesis Hfit : ind + n <= length l.
Hypothesis Hfree : forall q, ind <= q < ind + n -> nth_error l q = Some "O".

Lemma write_span_inv (p : nat) (lab : string) :
  nth_error (write_span l ind n col) p = Some lab ->
  (ind <= p < ind + n /\
   lab = if p =? ind then begin_tag col else inside_tag col) \/
  ((p < ind \/ ind + n <= p) /\ nth_error l p = Some lab).
Proof.
  rewrite nth_error_write_span by assumption.
  destruct (Nat.ltb_spec p ind); [intros E; right; split; [lia | exact E]|].
  destruct (Nat.eqb_spec p ind).
  { intros E. inversion E. left. split; [lia | reflexivity]. }
  destruct (Nat.ltb_spec p (ind + n)).
  - intros E. inversion E. left. split; [lia | reflexivity].
  - intros E. right. split; [lia | exact E].
Qed.

Lemma write_span_in (p : nat) :
  ind <= p < ind + n ->
  nth_error (write_span l ind n col) p
  = Some (if p =? ind then begin_tag col else inside_tag col).
Proof.
  intros Hp. rewrite nth_error_write_span by assumption.
  destruct (Nat.ltb_spec p ind); [lia|].
  destruct (Nat.eqb_spec p ind); [reflexivity|].
  now destruct (Nat.ltb_spec p (ind + n)); [|lia].
Qed.

Lemma write_span_out (p : nat) :
  p < ind \/ ind + n <= p ->
  nth_error (write_span l ind n col) p = nth_error l p.
Proof.
  intros Hp. rewrite nth_error_write_span by assumption.
  destruct (Nat.ltb_spec p ind); [reflexivity|].
  destruct (Nat.eqb_spec p ind); [lia|].
  now destruct (Nat.ltb_spec p (ind + n)); [lia|].
Qed.

(** A label already set is not touched. *)
Lemma write_span_keeps (p : nat) (lab : string) :
  nth_error l p = Some lab -> lab <> "O" ->
  nth_error (write_span l ind n col) p = Some lab.
Proof.
  intros Hp Hlab. rewrite write_span_out; [exact Hp|].
  destruct (Nat.lt_ge_cases p ind) as [|H1]; [now left|].
  destruct (Nat.lt_ge_cases p (ind + n)) as [H2|]; [|now right].
  rewrite Hfree in Hp by lia. inversion Hp. congruence.
Qed.
End MarkedStep.

Lemma span_at_keeps (r : row) (raw_split l l' : list string) (col : string)
  (s p : nat) :
  (forall q lab, nth_error l q = Some lab -> lab <> "O" ->
                 nth_error l' q = Some lab) ->
  span_at r raw_split l col s p -> span_at r raw_split l' col s p.
Proof.
  intros Hkeep (H1 & H2 & H3 & H4 & HB & HI).
  repeat split; try assumption; try lia.
  - apply (Hkeep _ _ HB), begin_not_O.
  - intros q Hq. apply (Hkeep _ _ (HI q Hq)), inside_not_O.
Qed.

Lemma tagged_no_begin (r : row) (raw_split cols l : list string)
  (col : string) (p : nat) :
  tagged r raw_split cols l -> ~ In col cols ->
  nth_error l p <> Some (begin_tag col).
Proof.
  intros (_ & Hlab & _) Hcol Hp.
  destruct (Hlab _ _ Hp) as [HO|(c & s & Hc & Hspan)].
  - now apply begin_not_O in HO.
  - apply span_at_label in Hspan. rewrite Hp in Hspan.
    inversion Hspan as [E]. destruct (p =? s).
    + apply begin_tag_inj in E. congruence.
    + now apply begin_not_inside in E.
Qed.

Lemma Ok_inj {A : Type} (a b : A) : Ok a = Ok b -> a = b.
Proof. intros H. now inversion H. Qed.

Lemma Ok_inj_some {A : Type} (a b : A) : Some a = Some b -> a = b.
Proof. intros H. now inversion H. Qed.

Lemma outcome_Ok (r : row) (raw_split l : list string) (col : string)
  (res : result (list string)) :
  outcome r raw_split l col res -> forall l', res = Ok l' ->
  (l' = l /\
   (skipped (cell r col) = true \/
    forall ind, ~ free_at raw_split (sublist_of r col) l ind)) \/
  exists ind,
    skipped (cell r col) = false /\ sublist_of r col <> [] /\
    free_at raw_split (sublist_of r col) l ind /\
    (forall j, j < ind -> ~ free_at raw_split (sublist_of r col) l j) /\
    l' = write_span l ind (length (sublist_of r col)) col.
Proof.
  intros H.
  destruct H as [Hskip | | Hskip Hblank Hnone | ind Hskip Hne Hfree Hmin];
    intros l' E; try discriminate E; apply Ok_inj in E; subst l'.
  - left. split; [reflexivity | now left].
  - left. split; [reflexivity | now right].
  - right. exists ind. repeat (split; [assumption|]). reflexivity.
Qed.

Lemma tagged_step (r : row) (raw_split cols l l' : list string)
  (col : string) :
  tagged r raw_split cols l ->
  outcome r raw_split l col (Ok l') ->
  tagged r raw_split (cols ++ [col]) l'.
Proof.
  intros Htag Hout.
  assert (Hweak : tagged r raw_split (cols ++ [col]) l).
  { destruct Htag as (Hlen & Hlab & Huniq). repeat split.
    - exact Hlen.
    - intros p lab Hp. destruct (Hlab _ _ Hp) as [|(c & s & Hc & Hs)];
        [now left | right].
      exists c, s. split; [apply in_or_app; now left | exact Hs].
    - intros Hnd. apply Huniq. now apply NoDup_app_remove_r in Hnd. }
  destruct (outcome_Ok Hout eq_refl)
    as [[-> _]|(ind & Hskip & Hne & Hfree & Hmin & ->)]; [exact Hweak|].
  destruct (free_at_fits Hne Hfree) as (Hn & Hfit & _ & HO).
  destruct Hfree as (_ & Hraw & _).
  destruct Htag as (Hlen & Hlab & Huniq).
  set (n := length (sublist_of r col)) in *.
  assert (Hkeep : forall q lab, nth_error l q = Some lab -> lab <> "O" ->
                    nth_error (write_span l ind n col) q = Some lab)
    by (intros q lab; now apply write_span_keeps).
  repeat split.
  - rewrite length_write_span by assumption. exact Hlen.
  - intros p lab Hp.
    apply write_span_inv in Hp as [[Hin _]|[_ Hold]]; try assumption.
    + right. exists col, ind. split; [apply in_or_app; right; now left|].
      repeat split; try assumption; try (fold n; lia).
      * rewrite write_span_in by (assumption || lia).
        now rewrite Nat.eqb_refl.
      * intros q Hq. fold n in Hq.
        rewrite write_span_in by (assumption || lia).
        now destruct (Nat.eqb_spec q ind); [lia|].
    + destruct (Hlab _ _ Hold) as [|(c & s & Hc & Hs)]; [now left | right].
      exists c, s. split; [apply in_or_app; now left|].
      eapply span_at_keeps; eassumption.
  - intros Hnd c p q Hp Hq.
    assert (Hcols : NoDup cols) by now apply NoDup_app_remove_r in Hnd.
    assert (Hnew : ~ In col cols).
    { intros Hin. apply NoDup_remove_2 in Hnd. apply Hnd.
      rewrite app_nil_r. exact Hin. }
    assert (Hnone : forall k, nth_error l k <> Some (begin_tag col)).
    { intros k. apply (tagged_no_begin (r := r) (raw_split := raw_split)
                         (cols := cols)); [|exact Hnew].
      repeat split; assumption. }
    apply write_span_inv in Hp as [[Hpin Ep]|[_ Hpold]]; try assumption;
      apply write_span_inv in Hq as [[Hqin Eq]|[_ Hqold]]; try assumption.
    + destruct (Nat.eqb_spec p ind), (Nat.eqb_spec q ind); try lia;
        try (now apply begin_not_inside in Ep);
        try (now apply begin_not_inside in Eq).
    + destruct (Nat.eqb_spec p ind);
        [|now apply begin_not_inside in Ep].
      apply begin_tag_inj in Ep. subst c. now apply Hnone in Hqold.
    + destruct (Nat.eqb_spec q ind);
        [|now apply begin_not_inside in Eq].
      apply begin_tag_inj in Eq. subst c. now apply Hnone in Hpold.
    + apply (Huniq Hcols c); assumption.
Qed.

(* ================================================================== *)
(** ** The loop over the columns *)

Lemma label_col_Ok (r : row) (raw_split l l' : list string) (col : string) :
  label_col r raw_split l col = Ok l' -> outcome r raw_split l col (Ok l').
Proof. intros H. rewrite <- H. apply label_col_outcome. Qed.

Lemma label_col_keeps (r : row) (raw_split l l' : list string) (col : string)
  (p : nat) (lab : string) :
  label_col r raw_split l col = Ok l' ->
  nth_error l p = Some lab -> lab <> "O" -> nth_error l' p = Some lab.
Proof.
  intros H Hp Hlab. apply label_col_Ok in H.
  destruct (outcome_Ok H eq_refl)
    as [[-> _]|(ind & _ & Hne & Hfree & _ & ->)]; [exact Hp|].
  destruct (free_at_fits Hne Hfree) as (Hn & Hfit & _ & HO).
  now apply write_span_keeps.
Qed.

Lemma columns_tagged (r : row) (raw_split : list string)
  (cols2 cols1 l1 l : list string) :
  tagged r raw_split cols1 l1 ->
  for_each (label_col r raw_split) cols2 l1 = Ok l ->
  tagged r raw_split (cols1 ++ cols2) l.
Proof.
  revert cols1 l1. induction cols2 as [|c cols2 IH]; intros cols1 l1 Htag H.
  - cbn in H. apply Ok_inj in H. subst l. now rewrite app_nil_r.
  - cbn [for_each] in H. apply bind_ok in H as (l' & Hstep & Hrest).
    replace (cols1 ++ c :: cols2) with ((cols1 ++ [c]) ++ cols2)
      by (now rewrite <- app_assoc).
    apply (IH _ l'); [|exact Hrest].
    eapply tagged_step; [exact Htag | now apply label_col_Ok].
Qed.

Lemma columns_keep (r : row) (raw_split : list string)
  (cols l l' : list string) (p : nat) (lab : string) :
  for_each (label_col r raw_split) cols l = Ok l' ->
  nth_error l p = Some lab -> lab <> "O" -> nth_error l' p = Some lab.
Proof.
  revert l. induction cols as [|c cols IH]; intros l H Hp Hlab.
  - cbn in H. apply Ok_inj in H. now subst l'.
  - cbn [for_each] in H. apply bind_ok in H as (l1 & Hstep & Hrest).
    apply (IH l1 Hrest); [|exact Hlab].
    eapply label_col_keeps; eassumption.
Qed.

Lemma labeler_run (logs_df : list row) (index_no : nat)
  (cols labels : list string) :
  labeler logs_df index_no cols = Ok labels ->
  exists r,
    nth_error logs_df index_no = Some r /\
    for_each (label_col r (split (raw_preprocess r))) cols
      (times "O" (Z.of_nat (length (split (raw_preprocess r))))) = Ok labels.
Proof.
  unfold labeler, getitem. intros H.
  destruct (nth_error logs_df index_no) as [r|]; [|discriminate H].
  exists r. split; [reflexivity | exact H].
Qed.

Lemma labeler_at (logs_df : list row) (index_no : nat) (cols : list string)
  (r : row) :
  nth_error logs_df index_no = Some r ->
  labeler logs_df index_no cols
  = for_each (label_col r (split (raw_preprocess r))) cols
      (times "O" (Z.of_nat (length (split (raw_preprocess r))))).
Proof. unfold labeler, getitem. now intros ->. Qed.

Lemma labeler_tagged (logs_df : list row) (index_no : nat)
  (cols labels : list string) :
  labeler logs_df index_no cols = Ok labels ->
  exists r,
    nth_error logs_df index_no = Some r /\
    tagged r (split (raw_preprocess r)) cols labels.
Proof.
  intros H. apply labeler_run in H as (r & Hr & H). exists r.
  split; [exact Hr|].
  change cols with ([] ++ cols).
  eapply columns_tagged; [apply tagged_init | exact H].
Qed.

(** C1.  When [labeler] returns a list with ['B-'+col] at position [i],
    the punctuation-split value of column [col] is a non-empty list of
    tokens that occurs in the split raw log at [i]:
    [raw_split[i:i+n] == sublist], and the slice is a full one. *)
Theorem labeler_begin_at_occurrence (logs_df : list row) (index_no : nat)
  (cols labels : list string) (col : string) (i : nat) :
  labeler logs_df index_no cols = Ok labels ->
  nth_error labels i = Some ("B-" ++ col)%string ->
  exists r,
    nth_error logs_df index_no = Some r /\
    In col cols /\
    split (punctuation_spliter (cell r col)) <> [] /\
    i + length (split (punctuation_spliter (cell r col)))
      <= length (split (raw_preprocess r)) /\
    slice (split (raw_preprocess r)) i
      (i + length (split (punctuation_spliter (cell r col))))
    = split (punctuation_spliter (cell r col)).
Proof.
  intros H Hi. apply labeler_tagged in H as (r & Hr & _ & Hlab & _).
  exists r. split; [exact Hr|].
  change ("B-" ++ col)%string with (begin_tag col) in Hi.
  destruct (Hlab _ _ Hi) as [HO|(c & s & Hc & Hspan)].
  { now apply begin_not_O in HO. }
  pose proof (span_at_label Hspan) as E. rewrite Hi in E.
  apply Ok_inj_some in E.
  destruct (Nat.eqb_spec i s) as [->|Hne];
    [|now apply begin_not_inside in E].
  apply begin_tag_inj in E. subst c.
  destruct Hspan as (_ & Hsub & _ & Hraw & _).
  fold (sublist_of r col). repeat (split; [assumption|]). split; [|exact Hraw].
  eapply slice_within; [exact Hraw | reflexivity |].
  destruct (sublist_of r col); [congruence | cbn; lia].
Qed.

Example sample_labeler : labeler sample_df 0 sample_cols = Ok sample_labels.
Proof. vm_compute. reflexivity. Qed.

Lemma labeler_begin_at_occurrence_witness :
  exists r,
    nth_error sample_df 0 = Some r /\
    In "name" sample_cols /\
    split (punctuation_spliter (cell r "name")) <> [] /\
    6 + length (split (punctuation_spliter (cell r "name")))
      <= length (split (raw_preprocess r)) /\
    slice (split (raw_preprocess r)) 6
      (6 + length (split (punctuation_spliter (cell r "name"))))
    = split (punctuation_spliter (cell r "name")).
Proof.
  apply (@labeler_begin_at_occurrence sample_df 0 sample_cols sample_labels
           "name" 6).
  - vm_compute. reflexivity.
  - vm_compute. reflexivity.
Defined.

(** C2.  The list [labeler] returns is a BIO tagging: every label is ['O'],
    ['B-'+col] or ['I-'+col] for a column of [cols]; a position with
    ['I-'+col] comes right after one with ['B-'+col] or ['I-'+col] of the
    same column; a position that lies in no span of a matched value
    carries ['O'], that is, every other label lies in such a span (the
    value occurs there, ['B-'+col] first, ['I-'+col] after). *)
Theorem labeler_bio_tagging (logs_df : list row) (index_no : nat)
  (cols labels : list string) :
  labeler logs_df index_no cols = Ok labels ->
  exists r,
    nth_error logs_df index_no = Some r /\
    (forall p lab, nth_error labels p = Some lab ->
       lab = "O" \/
       exists col, In col cols /\
         (lab = ("B-" ++ col)%string \/ lab = ("I-" ++ col)%string)) /\
    (forall p col, nth_error labels p = Some ("I-" ++ col)%string ->
       exists q, p = S q /\
         (nth_error labels q = Some ("B-" ++ col)%string \/
          nth_error labels q = Some ("I-" ++ col)%string)) /\
    (forall p, p < length labels ->
       (forall col s, In col cols ->
          ~ span_at r (split (raw_preprocess r)) labels col s p) ->
       nth_error labels p = Some "O") /\
    (forall p lab, nth_error labels p = Some lab -> lab <> "O" ->
       exists col s,
         In col cols /\ span_at r (split (raw_preprocess r)) labels col s p).
Proof.
  intros H. apply labeler_tagged in H as (r & Hr & _ & Hlab & _).
  exists r. split; [exact Hr|]. split; [|split; [|split]].
  - intros p lab Hp. destruct (Hlab _ _ Hp) as [|(c & s & Hc & Hspan)];
      [now left | right].
    exists c. split; [exact Hc|].
    apply span_at_label in Hspan. rewrite Hp in Hspan.
    apply Ok_inj_some in Hspan. destruct (p =? s); [now left | now right].
  - intros p col Hp.
    change ("I-" ++ col)%string with (inside_tag col) in *.
    change ("B-" ++ col)%string with (begin_tag col).
    destruct (Hlab _ _ Hp) as [HO|(c & s & Hc & Hspan)].
    { now apply inside_not_O in HO. }
    pose proof (span_at_label Hspan) as E. rewrite Hp in E.
    apply Ok_inj_some in E.
    destruct (Nat.eqb_spec p s) as [->|Hne].
    { symmetry in E. now apply begin_not_inside in E. }
    apply inside_tag_inj in E. subst c.
    destruct Hspan as (_ & _ & Hin & _ & HB & HI).
    exists (p - 1). split; [lia|].
    destruct (Nat.eq_dec (p - 1) s) as [->|Hq]; [now left | right].
    apply HI. lia.
  - intros p Hp Hnone.
    destruct (nth_error labels p) as [lab|] eqn:E.
    + destruct (Hlab _ _ E) as [->|(c & s & Hc & Hspan)]; [reflexivity|].
      now apply Hnone in Hspan.
    + apply nth_error_None in E. lia.
  - intros p lab Hp Hnot.
    destruct (Hlab _ _ Hp) as [->|Hspan]; [contradiction | exact Hspan].
Qed.

Lemma labeler_bio_tagging_witness :
  exists r,
    nth_error sample_df 0 = Some r /\
    (forall p lab, nth_error sample_labels p = Some lab ->
       lab = "O" \/
       exists col, In col sample_cols /\
         (lab = ("B-" ++ col)%string \/ lab = ("I-" ++ col)%string)) /\
    (forall p col, nth_error sample_labels p = Some ("I-" ++ col)%string ->
       exists q, p = S q /\
         (nth_error sample_labels q = Some ("B-" ++ col)%string \/
          nth_error sample_labels q = Some ("I-" ++ col)%string)) /\
    (forall p, p < length sample_labels ->
       (forall col s, In col sample_cols ->
          ~ span_at r (split (raw_preprocess r)) sample_labels col s p) ->
       nth_error sample_labels p = Some "O") /\
    (forall p lab, nth_error sample_labels p = Some lab -> lab <> "O" ->
       exists col s,
         In col sample_cols /\
         span_at r (split (raw_preprocess r)) sample_labels col s p).
Proof.
  apply (@labeler_bio_tagging sample_df 0 sample_cols sample_labels).
  vm_compute. reflexivity.
Defined.

Lemma outcome_total (r : row) (raw_split l : list string) (col : string)
  (res : result (list string)) :
  outcome r raw_split l col res ->
  raw_split = [] \/ (skipped (cell r col) = false -> sublist_of r col <> []) ->
  exists l', res = Ok l'.
Proof.
  intros H Hok.
  destruct H as [Hskip | Hskip Hblank Hraw | Hskip Hblank Hnone
                | ind Hskip Hne Hfree Hmin]; try (eexists; reflexivity).
  exfalso. destruct Hok as [E|Hsub]; [exact (Hraw E) | exact (Hsub Hskip Hblank)].
Qed.

Lemma columns_total (r : row) (raw_split cols : list string) :
  raw_split = [] \/
  (forall col, In col cols -> skipped (cell r col) = false ->
               sublist_of r col <> []) ->
  forall l, exists l', for_each (label_col r raw_split) cols l = Ok l'.
Proof.
  intros Hok. induction cols as [|c cols IH]; intros l.
  - exists l. reflexivity.
  - cbn [for_each].
    destruct (outcome_total (label_col_outcome r raw_split l c)) as [l1 ->].
    { destruct Hok as [E|Hsub]; [now left | right]. apply Hsub. now left. }
    cbn [bind]. apply IH.
    destruct Hok as [E|Hsub]; [now left | right].
    intros col Hcol. apply Hsub. now right.
Qed.


(** C3, as the code has it.  On a row where every column that is not
    skipped has a value with at least one token (or whose raw log has no
    token at all), [labeler] returns a list with exactly one label per
    token of the raw log, whatever matches and however long the values
    are. *)
Theorem labeler_one_label_per_token (logs_df : list row) (index_no : nat)
  (cols : list string) (r : row) :
  nth_error logs_df index_no = Some r ->
  split (raw_preprocess r) = [] \/
  (forall col, In col cols -> skipped (cell r col) = false ->
               split (punctuation_spliter (cell r col)) <> []) ->
  exists labels,
    labeler logs_df index_no cols = Ok labels /\
    length labels = length (split (raw_preprocess r)).
Proof.
  intros Hr Hok.
  destruct (columns_total r cols Hok
              (times "O" (Z.of_nat (length (split (raw_preprocess r))))))
    as [labels H].
  exists labels. rewrite (@labeler_at _ _ cols _ Hr). split; [exact H|].
  assert (Htag : tagged r (split (raw_preprocess r)) ([] ++ cols) labels)
    by (eapply columns_tagged; [apply tagged_init | exact H]).
  apply Htag.
Qed.

Lemma labeler_one_label_per_token_witness :
  exists labels,
    labeler sample_df 0 sample_cols = Ok labels /\
    length labels = 10.
Proof.
  apply (@labeler_one_label_per_token sample_df 0 sample_cols
           (mk_row "15 : 42 : 01 query example . com A" sample_cell)).
  - reflexivity.
  - right. intros col [<-|[<-|[<-|[<-|[]]]]] Hskip;
      vm_compute; vm_compute in Hskip; discriminate.
Defined.

(** C3, as stated, fails: a cell that holds a single space is not skipped
    and has no token, and [sublist[0]] raises on the first token of the raw
    log. *)
Lemma labeler_blank_value_raises :
  labeler [mk_row "a" (fun _ => " ")] 0 ["c"] = Raise IndexError /\
  ~ exists labels,
      labeler [mk_row "a" (fun _ => " ")] 0 ["c"] = Ok labels /\
      length labels = length (split "a").
Proof.
  assert (E : labeler [mk_row "a" (fun _ => " ")] 0 ["c"] = Raise IndexError)
    by (vm_compute; reflexivity).
  split; [exact E|]. intros (labels & H & _). rewrite E in H. discriminate H.
Qed.

(** [labeler] with the columns whose cell is skipped left out. *)
Lemma columns_skip (r : row) (raw_split cols : list string) (col : string) :
  skipped (cell r col) = true ->
  forall l,
    for_each (label_col r raw_split) cols l
    = for_each (label_col r raw_split)
        (filter (fun c => negb (String.eqb c col)) cols) l.
Proof.
  intros Hskip. induction cols as [|c cols IH]; intros l; [reflexivity|].
  cbn [for_each filter]. destruct (String.eqb_spec c col) as [->|Hne].
  - cbn [negb]. unfold label_col at 1. rewrite Hskip. cbn [negb bind].
    apply IH.
  - cbn [negb for_each].
    destruct (label_col r raw_split l c) as [l1|e]; cbn [bind];
      [apply IH | reflexivity].
Qed.

(** C9.  A column whose cell reads [''], ['-'], ['None'] or ['NaN'] is
    skipped: the call returns what it returns without that column, and no
    position carries ['B-'+col] or ['I-'+col]. *)
Theorem labeler_skips_empty_value (logs_df : list row) (index_no : nat)
  (cols : list string) (r : row) (col : string) :
  nth_error logs_df index_no = Some r ->
  In (cell r col) [""; "-"; "None"; "NaN"] ->
  labeler logs_df index_no cols
  = labeler logs_df index_no (filter (fun c => negb (String.eqb c col)) cols)
  /\
  forall labels p,
    labeler logs_df index_no cols = Ok labels ->
    nth_error labels p <> Some ("B-" ++ col)%string /\
    nth_error labels p <> Some ("I-" ++ col)%string.
Proof.
  intros Hr Hval.
  assert (Hskip : skipped (cell r col) = true).
  { unfold skipped. apply existsb_exists. exists (cell r col).
    split; [exact Hval | apply String.eqb_refl]. }
  split.
  - rewrite (@labeler_at _ _ cols _ Hr), (@labeler_at _ _ _ _ Hr).
    now apply columns_skip.
  - intros labels p H.
    apply labeler_tagged in H as (r' & Hr' & _ & Hlab & _).
    assert (r' = r) by congruence. subst r'.
    change ("B-" ++ col)%string with (begin_tag col).
    change ("I-" ++ col)%string with (inside_tag col).
    assert (Hno : forall lab, nth_error labels p = Some lab ->
                    lab <> begin_tag col /\ lab <> inside_tag col).
    { intros lab Hp. destruct (Hlab _ _ Hp) as [->|(c & s & Hc & Hspan)].
      - split; intros E; symmetry in E;
          [now apply begin_not_O in E | now apply inside_not_O in E].
      - pose proof (span_at_label Hspan) as E. rewrite Hp in E.
        apply Ok_inj_some in E. destruct Hspan as (Hc_skip & _).
        assert (c <> col) by (intros ->; congruence).
        subst lab. destruct (p =? s); split; intros E.
        + now apply begin_tag_inj in E.
        + now apply begin_not_inside in E.
        + symmetry in E. now apply begin_not_inside in E.
        + now apply inside_tag_inj in E. }
    split; intros E; destruct (Hno _ E) as [H1 H2]; congruence.
Qed.

Lemma labeler_skips_empty_value_witness :
  labeler sample_df 0 sample_cols
  = labeler sample_df 0
      (filter (fun c => negb (String.eqb c "flags")) sample_cols)
  /\
  forall labels p,
    labeler sample_df 0 sample_cols = Ok labels ->
    nth_error labels p <> Some ("B-" ++ "flags")%string /\
    nth_error labels p <> Some ("I-" ++ "flags")%string.
Proof.
  apply (@labeler_skips_empty_value sample_df 0 sample_cols
           (mk_row "15 : 42 : 01 query example . com A" sample_cell) "flags").
  - reflexivity.
  - vm_compute. right. left. reflexivity.
Defined.

(** C4.  Take the columns in the order [cols1 ++ col :: cols2] and let
    [before] and [after] be the label list when the turn of [col] starts
    and ends.  Then [col] labels nothing (its cell is skipped or its value
    occurs nowhere on free positions) or exactly the earliest occurrence of
    its value whose positions all carry ['O'] in [before]; a label that is
    set in [before] is the same in [after] and in the final list; a
    position that changes during the turn of [col] carried ['O'], receives
    a label of [col] and keeps it to the end; every final label is ['O'] or
    a label of exactly one column; and when the column names are distinct
    no ['B-'+c] occurs twice. *)
Theorem labeler_earliest_free_occurrence (logs_df : list row)
  (index_no : nat) (cols1 cols2 : list string) (col : string)
  (final : list string) :
  labeler logs_df index_no (cols1 ++ col :: cols2) = Ok final ->
  exists r before after,
    nth_error logs_df index_no = Some r /\
    labeler logs_df index_no cols1 = Ok before /\
    labeler logs_df index_no (cols1 ++ [col]) = Ok after /\
    ((after = before /\
      (skipped (cell r col) = true \/
       forall ind,
         ~ free_at (split (raw_preprocess r))
             (split (punctuation_spliter (cell r col))) before ind))
     \/
     exists ind,
       skipped (cell r col) = false /\
       free_at (split (raw_preprocess r))
         (split (punctuation_spliter (cell r col))) before ind /\
       (forall j, j < ind ->
          ~ free_at (split (raw_preprocess r))
              (split (punctuation_spliter (cell r col))) before j) /\
       after = write_span before ind
                 (length (split (punctuation_spliter (cell r col)))) col) /\
    (forall p lab, nth_error before p = Some lab -> lab <> "O" ->
       nth_error after p = Some lab /\ nth_error final p = Some lab) /\
    (forall p, nth_error after p <> nth_error before p ->
       nth_error before p = Some "O" /\
       (nth_error after p = Some ("B-" ++ col)%string \/
        nth_error after p = Some ("I-" ++ col)%string) /\
       nth_error final p = nth_error after p) /\
    (forall p lab, nth_error final p = Some lab ->
       lab = "O" \/
       exists c, In c (cols1 ++ col :: cols2) /\
         (lab = ("B-" ++ c)%string \/ lab = ("I-" ++ c)%string) /\
         forall c', lab = ("B-" ++ c')%string \/ lab = ("I-" ++ c')%string ->
                    c' = c) /\
    (NoDup (cols1 ++ col :: cols2) -> forall c p q,
       nth_error final p = Some ("B-" ++ c)%string ->
       nth_error final q = Some ("B-" ++ c)%string -> p = q).
Proof.
  intros H. pose proof (labeler_tagged _ _ _ H) as (r & Hr & _ & Hlab & Huniq).
  rewrite (@labeler_at _ _ _ _ Hr) in H.
  rewrite for_each_app in H. apply bind_ok in H as (before & Hbefore & H).
  cbn [for_each] in H. apply bind_ok in H as (after & Hstep & Hrest).
  exists r, before, after.
  split; [exact Hr|]. split; [now rewrite (@labeler_at _ _ _ _ Hr)|].
  split.
  { rewrite (@labeler_at _ _ _ _ Hr), for_each_app, Hbefore. cbn [bind for_each].
    now rewrite Hstep. }
  fold (sublist_of r col).
  change ("B-" ++ col)%string with (begin_tag col).
  change ("I-" ++ col)%string with (inside_tag col).
  pose proof (outcome_Ok (label_col_Ok _ _ _ _ Hstep) eq_refl) as Hcase.
  split; [|split; [|split; [|split]]].
  - destruct Hcase as [Hsame|(ind & Hskip & Hne & Hfree & Hmin & E)];
      [now left | right].
    exists ind. repeat (split; [assumption|]). exact E.
  - intros p lab Hp Hnot.
    assert (Hafter : nth_error after p = Some lab)
      by (eapply label_col_keeps; eassumption).
    split; [exact Hafter|]. eapply columns_keep; eassumption.
  - intros p Hchange.
    destruct Hcase as [[-> _]|(ind & Hskip & Hne & Hfree & Hmin & ->)];
      [congruence|].
    destruct (free_at_fits Hne Hfree) as (Hn & Hfit & _ & HO).
    assert (Hin : ind <= p < ind + length (sublist_of r col)).
    { destruct (Nat.lt_ge_cases p ind) as [Hlt|Hge].
      - exfalso. apply Hchange. apply write_span_out; [assumption.. | now left].
      - split; [exact Hge|].
        destruct (Nat.lt_ge_cases p (ind + length (sublist_of r col)))
          as [Hlt|Hge2]; [exact Hlt|].
        exfalso. apply Hchange.
        apply write_span_out; [assumption.. | now right]. }
    pose proof (@write_span_in before ind _ col Hn Hfit p Hin) as Hnew.
    split; [now apply HO|]. split.
    + rewrite Hnew. destruct (p =? ind); [now left | now right].
    + rewrite Hnew. eapply columns_keep; [exact Hrest | exact Hnew |].
      destruct (p =? ind); [apply begin_not_O | apply inside_not_O].
  - intros p lab Hp. destruct (Hlab _ _ Hp) as [|(c & s & Hc & Hspan)];
      [now left | right].
    exists c. split; [exact Hc|].
    apply span_at_label in Hspan. rewrite Hp in Hspan.
    apply Ok_inj_some in Hspan. subst lab.
    change (fun x => ("B-" ++ x)%string) with begin_tag.
    destruct (p =? s).
    + split; [now left|]. intros c' [E|E].
      * symmetry. now apply begin_tag_inj.
      * now apply begin_not_inside in E.
    + split; [now right|]. intros c' [E|E].
      * symmetry in E. now apply begin_not_inside in E.
      * symmetry. now apply inside_tag_inj.
  - exact Huniq.
Qed.

Lemma labeler_earliest_free_occurrence_witness :
  exists r before after,
    nth_error sample_df 0 = Some r /\
    labeler sample_df 0 ["time"] = Ok before /\
    labeler sample_df 0 (["time"] ++ ["name"]) = Ok after /\
    ((after = before /\
      (skipped (cell r "name") = true \/
       forall ind,
         ~ free_at (split (raw_preprocess r))
             (split (punctuation_spliter (cell r "name"))) before ind))
     \/
     exists ind,
       skipped (cell r "name") = false /\
       free_at (split (raw_preprocess r))
         (split (punctuation_spliter (cell r "name"))) before ind /\
       (forall j, j < ind ->
          ~ free_at (split (raw_preprocess r))
              (split (punctuation_spliter (cell r "name"))) before j) /\
       after = write_span before ind
                 (length (split (punctuation_spliter (cell r "name"))))
                 "name") /\
    (forall p lab, nth_error before p = Some lab -> lab <> "O" ->
       nth_error after p = Some lab /\ nth_error sample_labels p = Some lab) /\
    (forall p, nth_error after p <> nth_error before p ->
       nth_error before p = Some "O" /\
       (nth_error after p = Some ("B-" ++ "name")%string \/
        nth_error after p = Some ("I-" ++ "name")%string) /\
       nth_error sample_labels p = nth_error after p) /\
    (forall p lab, nth_error sample_labels p = Some lab ->
       lab = "O" \/
       exists c, In c (["time"] ++ "name" :: ["type"; "flags"]) /\
         (lab = ("B-" ++ c)%string \/ lab = ("I-" ++ c)%string) /\
         forall c', lab = ("B-" ++ c')%string \/ lab = ("I-" ++ c')%string ->
                    c' = c) /\
    (NoDup (["time"] ++ "name" :: ["type"; "flags"]) -> forall c p q,
       nth_error sample_labels p = Some ("B-" ++ c)%string ->
       nth_error sample_labels q = Some ("B-" ++ c)%string -> p = q).
Proof.
  apply (@labeler_earliest_free_occurrence sample_df 0 ["time"]
           ["type"; "flags"] "name" sample_labels).
  vm_compute. reflexivity.
Defined.

(* ================================================================== *)
(** ** [subword_labeler] *)

Lemma chars_X (n : Z) : chars (str_times "X" n) = repeat "X" (Z.to_nat n).
Proof.
  unfold str_times. induction (Z.to_nat n) as [|m IH]; [reflexivity|].
  cbn [repeat String.concat]. destruct m as [|m]; [reflexivity|].
  cbn [repeat] in *. unfold chars in *.
  cbn [append list_ascii_of_string map]. now rewrite IH.
Qed.

Lemma tags_loop (counts : list Z) (tags : list string) (k : nat)
  (acc : list string) :
  k + length tags <= length counts ->
  for_each (tag_step counts) (combine (seq k (length tags)) tags) acc
  = Ok (acc ++ with_pieces tags (skipn k counts)).
Proof.
  revert k acc. induction tags as [|tag tags IH]; intros k acc Hlen.
  - cbn. now rewrite app_nil_r.
  - cbn [length] in Hlen. cbn [length seq combine for_each tag_step].
    destruct (nth_error counts k) as [n|] eqn:Hk;
      [|apply nth_error_None in Hk; lia].
    unfold getitem. rewrite Hk. cbn [bind]. rewrite IH by lia.
    rewrite (skipn_nth_error _ _ Hk), chars_X. unfold with_pieces.
    cbn [combine flat_map]. now rewrite <- !app_assoc.
Qed.

Lemma length_with_pieces (tags : list string) (counts : list Z) :
  length tags = length counts -> Forall (fun n => 0 <= n)%Z counts ->
  Z.of_nat (length (with_pieces tags counts))
  = (Z.of_nat (length tags) + sum_Z counts)%Z.
Proof.
  revert counts. induction tags as [|tag tags IH]; intros [|n counts] Hlen Hpos;
    try discriminate Hlen; [reflexivity|].
  inversion Hpos as [|? ? Hn Hrest]. subst.
  unfold with_pieces in *. cbn [combine flat_map sum_Z fold_right].
  rewrite length_app. change (length (tag :: repeat "X" (Z.to_nat n)))
    with (S (length (repeat "X" (Z.to_nat n)))).
  rewrite repeat_length. fold (sum_Z counts).
  cbn [length] in Hlen |- *.
  assert (IH' := IH counts (eq_add_S _ _ Hlen) Hrest). lia.
Qed.

Lemma filter_with_pieces (tags : list string) (counts : list Z) :
  length tags = length counts -> ~ In "X" tags ->
  filter not_X (with_pieces tags counts) = tags.
Proof.
  revert counts. induction tags as [|tag tags IH]; intros [|n counts] Hlen HX;
    try discriminate Hlen; [reflexivity|].
  unfold with_pieces in *. cbn [combine flat_map].
  assert (Htag : not_X tag = true).
  { unfold not_X. destruct (String.eqb_spec tag "X") as [->|]; [|reflexivity].
    exfalso. apply HX. now left. }
  assert (Hrep : filter not_X (repeat "X" (Z.to_nat n)) = []).
  { induction (Z.to_nat n) as [|m IHm]; [reflexivity | exact IHm]. }
  rewrite filter_app. cbn [filter]. rewrite Htag, Hrep. cbn [app].
  f_equal. apply IH.
  - cbn [length] in Hlen. lia.
  - intros Hin. apply HX. now right.
Qed.

Section SubwordFacts.
Variable tokenizer : list string -> list Z.

Lemma logs_loop (pairs : list (string * list string))
  (acc : list (list string)) :
  (forall log tags, In (log, tags) pairs -> aligned tokenizer log tags) ->
  for_each
    (fun subword_labels '(log, tags) =>
       temp_tags <- for_each (tag_step (tokenizer (split log)))
                      (enumerate tags) [] ;;
       Ok (subword_labels ++ [temp_tags]))
    pairs acc
  = Ok (acc ++ map (fun '(log, tags) =>
                      with_pieces tags (tokenizer (split log))) pairs).
Proof.
  revert acc. induction pairs as [|[log tags] pairs IH]; intros acc Hal.
  - cbn. now rewrite app_nil_r.
  - cbn [for_each map]. unfold enumerate.
    destruct (Hal log tags (or_introl eq_refl)) as [Ht Hc].
    rewrite tags_loop by (cbn; lia). cbn [bind skipn app].
    rewrite IH by (intros l t H; apply Hal; now right).
    now rewrite <- app_assoc.
Qed.
End SubwordFacts.

Lemma nth_error_combine {A B : Type} (l : list A) (l' : list B) (k : nat)
  (a : A) (b : B) :
  nth_error l k = Some a -> nth_error l' k = Some b ->
  nth_error (combine l l') k = Some (a, b).
Proof.
  revert l l'. induction k as [|k IH]; intros [|x l] [|y l'] Ha Hb;
    try discriminate Ha; try discriminate Hb; cbn in *.
  - congruence.
  - now apply IH.
Qed.

(** C7, as the code has it.  For logs and tag lists of equal number, with
    one tag and one reported non-negative count per word of each log and no
    tag equal to ['X'], [subword_labeler] returns one sequence per log:
    every tag followed by as many ['X'] as reported for its word.  Its
    length is the number of tags plus the sum of the counts, and its
    entries other than ['X'] are the tags. *)
Theorem subword_labeler_pieces (tokenizer : list string -> list Z)
  (log_list : list string) (label_list : list (list string)) :
  length log_list = length label_list ->
  (forall log tags, In (log, tags) (combine log_list label_list) ->
     length tags = length (split log) /\
     length (tokenizer (split log)) = length (split log) /\
     Forall (fun n => 0 <= n)%Z (tokenizer (split log)) /\
     ~ In "X" tags) ->
  exists subword_labels,
    subword_labeler tokenizer log_list label_list = Ok subword_labels /\
    length subword_labels = length log_list /\
    forall k log tags,
      nth_error log_list k = Some log -> nth_error label_list k = Some tags ->
      exists out,
        nth_error subword_labels k = Some out /\
        out = flat_map (fun '(tag, n) => tag :: repeat "X" (Z.to_nat n))
                (combine tags (tokenizer (split log))) /\
        Z.of_nat (length out)
        = (Z.of_nat (length tags) + sum_Z (tokenizer (split log)))%Z /\
        filter (fun tag => negb (String.eqb tag "X")) out = tags.
Proof.
  intros Hlen Hpairs.
  exists (map (fun '(log, tags) => with_pieces tags (tokenizer (split log)))
            (combine log_list label_list)).
  split; [|split].
  - unfold subword_labeler. rewrite logs_loop; [reflexivity|].
    intros log tags Hin. destruct (Hpairs log tags Hin) as (H1 & H2 & _).
    now split.
  - rewrite length_map, length_combine. lia.
  - intros k log tags Hlog Htags.
    pose proof (nth_error_combine _ _ _ Hlog Htags) as Hk.
    destruct (Hpairs log tags (nth_error_In _ _ Hk)) as (H1 & H2 & H3 & H4).
    exists (with_pieces tags (tokenizer (split log))).
    split; [|split; [reflexivity|split]].
    + rewrite nth_error_map, Hk. reflexivity.
    + apply length_with_pieces; [congruence | exact H3].
    + apply filter_with_pieces; [congruence | exact H4].
Qed.

Lemma subword_labeler_pieces_witness :
  exists subword_labels,
    subword_labeler sample_tokenizer ["ab c"; "xyz"] [["O"; "B-t"]; ["O"]]
    = Ok subword_labels /\
    length subword_labels = length ["ab c"; "xyz"] /\
    forall k log tags,
      nth_error ["ab c"; "xyz"] k = Some log ->
      nth_error [["O"; "B-t"]; ["O"]] k = Some tags ->
      exists out,
        nth_error subword_labels k = Some out /\
        out = flat_map (fun '(tag, n) => tag :: repeat "X" (Z.to_nat n))
                (combine tags (sample_tokenizer (split log))) /\
        Z.of_nat (length out)
        = (Z.of_nat (length tags) + sum_Z (sample_tokenizer (split log)))%Z /\
        filter (fun tag => negb (String.eqb tag "X")) out = tags.
Proof.
  apply (@subword_labeler_pieces sample_tokenizer ["ab c"; "xyz"]
           [["O"; "B-t"]; ["O"]]).
  - reflexivity.
  - intros log tags [E|[E|[]]]; inversion E; subst; clear E.
    + change (split "ab c") with ["ab"; "c"].
      change (sample_tokenizer ["ab"; "c"]) with [1; 0]%Z.
      repeat split; [repeat constructor; lia|].
      intros [H|[H|[]]]; discriminate H.
    + change (split "xyz") with ["xyz"].
      change (sample_tokenizer ["xyz"]) with [2]%Z.
      repeat split; [repeat constructor; lia|].
      intros [H|[]]; discriminate H.
Defined.

(** C7, as stated, fails for a tag list that holds ['X']: the entries other
    than ['X'] of the output are then not the tags. *)
Lemma subword_labeler_X_tag :
  length ["a"] = length [["X"]] /\
  length ["X"] = length (split "a") /\
  length (sample_tokenizer (split "a")) = length (split "a") /\
  Forall (fun n => 0 <= n)%Z (sample_tokenizer (split "a")) /\
  subword_labeler sample_tokenizer ["a"] [["X"]] = Ok [["X"]] /\
  filter (fun tag => negb (String.eqb tag "X")) ["X"] <> ["X"].
Proof.
  change (split "a") with ["a"].
  change (sample_tokenizer ["a"]) with [0]%Z.
  repeat split.
  - repeat constructor. lia.
  - vm_compute. discriminate.
Qed.

(* ================================================================== *)
(** ** Dictionaries *)

Section DictFacts.
Context {K V : Type}.
Variable eqb : K -> K -> bool.
Hypothesis eqb_eq : forall a b, eqb a b = true <-> a = b.

Lemma eqb_neq (a b : K) : a <> b -> eqb a b = false.
Proof.
  intros H. destruct (eqb a b) eqn:E; [|reflexivity].
  apply eqb_eq in E. contradiction.
Qed.

Lemma dict_set_new (d : dict K V) (k : K) (v : V) :
  ~ In k (keys d) -> dict_set eqb d k v = d ++ [(k, v)].
Proof.
  induction d as [|[k' v'] d IH]; intros Hk; [reflexivity|].
  cbn [dict_set]. rewrite eqb_neq by (intros ->; apply Hk; now left).
  cbn [app]. f_equal. apply IH. intros Hin. apply Hk. now right.
Qed.

Lemma keys_dict_set (d : dict K V) (k k' : K) (v : V) :
  In k (keys (dict_set eqb d k' v)) <-> In k (keys d) \/ k = k'.
Proof.
  induction d as [|[k0 v0] d IH]; cbn [dict_set keys map fst In].
  - split; [intros [<-|[]]; now right | intros [ [] | -> ]; now left].
  - destruct (eqb k0 k') eqn:E; cbn [keys map fst In].
    + apply eqb_eq in E. subst k0. split; [tauto|].
      intros [H | ->]; [exact H | now left].
    + fold (keys (dict_set eqb d k' v)). rewrite IH. fold (keys d). tauto.
Qed.

Lemma dict_get_key (d : dict K V) (k : K) :
  In k (keys d) -> exists v, dict_get eqb d k = Some v.
Proof.
  induction d as [|[k0 v0] d IH]; intros Hk; [destruct Hk|].
  cbn [dict_get]. destruct (eqb k0 k) eqn:E; [now exists v0|].
  destruct Hk as [Hk|Hk]; [|now apply IH].
  cbn in Hk. subst k0. rewrite (proj2 (eqb_eq k k) eq_refl) in E.
  discriminate E.
Qed.

Lemma dict_get_In (d : dict K V) (k : K) (v : V) :
  dict_get eqb d k = Some v -> In (k, v) d.
Proof.
  induction d as [|[k0 v0] d IH]; intros H; [discriminate H|].
  cbn [dict_get] in H. destruct (eqb k0 k) eqn:E.
  - apply eqb_eq in E. inversion H. subst. now left.
  - right. now apply IH.
Qed.

Lemma In_dict_get (d : dict K V) (k : K) (v : V) :
  NoDup (keys d) -> In (k, v) d -> dict_get eqb d k = Some v.
Proof.
  induction d as [|[k0 v0] d IH]; intros Hnd Hin; [destruct Hin|].
  cbn [keys map fst] in Hnd. inversion Hnd as [|? ? Hk0 Hd]. subst.
  cbn [dict_get]. destruct Hin as [E|Hin].
  - inversion E. subst. now rewrite (proj2 (eqb_eq k k) eq_refl).
  - rewrite eqb_neq; [now apply IH|].
    intros ->. apply Hk0. apply (in_map fst) in Hin. exact Hin.
Qed.
End DictFacts.

(* ================================================================== *)
(** ** The label dictionary *)

Lemma label2id_fold (ts : list string) (k : nat) (d : dict string Z) :
  NoDup (keys d ++ ts) ->
  fold_left (fun d '(i, t) => dict_set String.eqb d t (Z.of_nat i))
    (combine (seq k (length ts)) ts) d
  = d ++ combine ts (map Z.of_nat (seq k (length ts))).
Proof.
  revert k d. induction ts as [|t ts IH]; intros k d Hnd.
  - cbn. now rewrite app_nil_r.
  - cbn [length seq combine fold_left map].
    rewrite (dict_set_new String.eqb String.eqb_eq).
    + rewrite IH.
      * now rewrite <- app_assoc.
      * unfold keys in *. rewrite map_app, <- app_assoc. exact Hnd.
    + apply NoDup_remove_2 in Hnd. intros Hin. apply Hnd.
      apply in_or_app. now left.
Qed.

Lemma map_fst_combine {A B : Type} (l : list A) (l' : list B) :
  length l = length l' -> map fst (combine l l') = l.
Proof.
  revert l'. induction l as [|x l IH]; intros [|y l'] H;
    try discriminate H; [reflexivity|].
  cbn. f_equal. apply IH. now inversion H.
Qed.

Lemma map_snd_combine {A B : Type} (l : list A) (l' : list B) :
  length l = length l' -> map snd (combine l l') = l'.
Proof.
  revert l'. induction l as [|x l IH]; intros [|y l'] H;
    try discriminate H; [reflexivity|].
  cbn. f_equal. apply IH. now inversion H.
Qed.

Lemma label2id_items (label_values : list string) :
  NoDup label_values -> ~ In "[PAD]" label_values -> ~ In "X" label_values ->
  label2id label_values = label_items label_values.
Proof.
  intros Hnd Hpad HX. unfold label2id, label_items, slice_assign, enumerate.
  cbn [firstn Nat.max skipn app].
  rewrite label2id_fold by (cbn [keys map app]; now constructor).
  cbn [app]. apply (dict_set_new String.eqb String.eqb_eq).
  unfold keys. rewrite map_fst_combine
    by (now rewrite length_map, length_seq).
  intros [E|Hin]; [discriminate E | exact (HX Hin)].
Qed.

Lemma keys_label_items (label_values : list string) :
  keys (label_items label_values) = "[PAD]" :: label_values ++ ["X"].
Proof.
  unfold label_items, keys. rewrite map_app, map_fst_combine.
  - reflexivity.
  - cbn [length]. now rewrite length_map, length_seq.
Qed.

Lemma values_label_items (label_values : list string) :
  map snd (label_items label_values)
  = map Z.of_nat (seq 0 (S (length label_values))) ++ [(-100)%Z].
Proof.
  unfold label_items. rewrite map_app, map_snd_combine.
  - reflexivity.
  - cbn [length]. now rewrite length_map, length_seq.
Qed.

Lemma NoDup_keys_label_items (label_values : list string) :
  NoDup label_values -> ~ In "[PAD]" label_values -> ~ In "X" label_values ->
  NoDup (keys (label_items label_values)).
Proof.
  intros Hnd Hpad HX. rewrite keys_label_items. constructor.
  - intros Hin. apply in_app_or in Hin as [Hin|[E|[]]];
      [exact (Hpad Hin) | discriminate E].
  - apply NoDup_app; [exact Hnd | repeat constructor; intros [] |].
    intros t Ht [<-|[]]. exact (HX Ht).
Qed.

Lemma NoDup_values_label_items (label_values : list string) :
  NoDup (map snd (label_items label_values)).
Proof.
  rewrite values_label_items. apply NoDup_app.
  - apply NoDup_map_NoDup_ForallPairs; [|apply seq_NoDup].
    intros a b _ _ E. now apply Nat2Z.inj.
  - repeat constructor. intros [].
  - intros v Hv [<-|[]]. apply in_map_iff in Hv as (n & E & _). lia.
Qed.

Lemma label_items_nonneg (label_values : list string) (t : string) (i : Z) :
  In (t, i) (label_items label_values) -> t <> "X" -> (0 <= i)%Z.
Proof.
  unfold label_items. intros Hin Ht.
  apply in_app_or in Hin as [Hin|[E|[]]]; [|inversion E; congruence].
  apply in_combine_r, in_map_iff in Hin as (n & <- & _). lia.
Qed.

(** [id2label] on a dictionary whose values are distinct. *)
Lemma id2label_loop (d : dict string Z) (items : dict string Z)
  (acc : dict Z string) :
  NoDup (keys d) -> incl items d -> NoDup (keys acc ++ map snd items) ->
  for_each
    (fun d' key => v <- dict_getitem String.eqb d key ;;
                   Ok (dict_set Z.eqb d' v key))
    (keys items) acc
  = Ok (acc ++ map swap items).
Proof.
  intros Hd. revert acc. induction items as [|[k v] items IH];
    intros acc Hincl Hnd.
  - cbn. now rewrite app_nil_r.
  - cbn [keys map fst for_each]. unfold dict_getitem.
    rewrite (In_dict_get String.eqb String.eqb_eq d k v Hd)
      by (apply Hincl; now left).
    cbn [bind]. rewrite (dict_set_new Z.eqb Z.eqb_eq).
    + fold (keys items). rewrite IH.
      * now rewrite <- app_assoc.
      * intros x Hx. apply Hincl. now right.
      * unfold keys in *. rewrite map_app, <- app_assoc. exact Hnd.
    + cbn [map snd] in Hnd. apply NoDup_remove_2 in Hnd.
      intros Hin. apply Hnd. apply in_or_app. now left.
Qed.

Lemma id2label_swap (d : dict string Z) :
  NoDup (keys d) -> NoDup (map snd d) -> id2label d = Ok (map swap d).
Proof.
  intros Hk Hv. unfold id2label.
  now rewrite (@id2label_loop d d [] Hk (incl_refl d) Hv).
Qed.

Lemma nodup_snd_inj {A B : Type} (l : list (A * B)) (a a' : A) (b : B) :
  NoDup (map snd l) -> In (a, b) l -> In (a', b) l -> a = a'.
Proof.
  induction l as [|[x y] l IH]; intros Hnd H1 H2; [destruct H1|].
  cbn [map snd] in Hnd. inversion Hnd as [|? ? Hy Hl]. subst.
  destruct H1 as [E1|H1], H2 as [E2|H2].
  - congruence.
  - inversion E1. subst. exfalso. apply Hy.
    apply (in_map snd) in H2. exact H2.
  - inversion E2. subst. exfalso. apply Hy.
    apply (in_map snd) in H1. exact H1.
  - now apply IH.
Qed.

Lemma map_m_In {A B : Type} (f : A -> result B) (xs : list A) (ys : list B) :
  map_m f xs = Ok ys -> forall y, In y ys -> exists x, In x xs /\ f x = Ok y.
Proof.
  revert ys. induction xs as [|x xs IH]; intros ys H y Hy.
  - cbn in H. apply Ok_inj in H. subst ys. destruct Hy.
  - cbn [map_m] in H. apply bind_ok in H as (y0 & Hx & H).
    apply bind_ok in H as (ys0 & Hxs & H). apply Ok_inj in H. subst ys.
    destruct Hy as [<-|Hy].
    + exists x. split; [now left | exact Hx].
    + destruct (IH _ Hxs _ Hy) as (x' & Hin & Hfx).
      exists x'. split; [now right | exact Hfx].
Qed.

Lemma labeler_label_shape (logs_df : list row) (index_no : nat)
  (cols labels : list string) (lab : string) :
  labeler logs_df index_no cols = Ok labels -> In lab labels ->
  lab = "O" \/ exists col, lab = begin_tag col \/ lab = inside_tag col.
Proof.
  intros H Hin. apply labeler_tagged in H as (r & _ & _ & Hlab & _).
  apply In_nth_error in Hin as (p & Hp).
  destruct (Hlab _ _ Hp) as [|(c & s & _ & Hspan)]; [now left | right].
  exists c. apply span_at_label in Hspan. rewrite Hp in Hspan.
  apply Ok_inj_some in Hspan. destruct (p =? s); [now left | now right].
Qed.

Lemma all_labels_shape (logs_df : list row) (cols : list string)
  (labels : list (list string)) (lab : string) :
  all_labels logs_df cols = Ok labels -> In lab (concat labels) ->
  lab <> "[PAD]" /\ lab <> "X".
Proof.
  intros H Hin. apply in_concat in Hin as (l & Hl & Hin).
  destruct (@map_m_In _ _ _ _ _ H _ Hl) as (indx & _ & Hcall).
  destruct (@labeler_label_shape _ _ _ _ _ Hcall Hin) as [->|(c & [->| ->])];
    split; intros E; inversion E.
Qed.

(** C6.  With [labels] the lists [labeler] returns for the rows of the
    frame and [label_values] any listing of the set of their labels,
    [label2id] maps ['[PAD]'] to 0, every label of [labels] to a
    non-negative integer, no two keys to the same integer, ['X'] to -100;
    and [id2label] maps the integer of every key back to the key. *)
Theorem label2id_roundtrip (logs_df : list row) (cols : list string)
  (labels : list (list string)) (label_values : list string) :
  all_labels logs_df cols = Ok labels ->
  list_of_set (concat labels) label_values ->
  dict_get String.eqb (label2id label_values) "[PAD]" = Some 0%Z /\
  (forall t, In t (concat labels) ->
     exists i, dict_get String.eqb (label2id label_values) t = Some i /\
               (0 <= i)%Z) /\
  (forall t1 t2 i,
     dict_get String.eqb (label2id label_values) t1 = Some i ->
     dict_get String.eqb (label2id label_values) t2 = Some i -> t1 = t2) /\
  dict_get String.eqb (label2id label_values) "X" = Some (-100)%Z /\
  exists inverse,
    id2label (label2id label_values) = Ok inverse /\
    forall t i,
      dict_get String.eqb (label2id label_values) t = Some i ->
      dict_get Z.eqb inverse i = Some t.
Proof.
  intros Hlabels [Hnd Hset].
  assert (Hpad : ~ In "[PAD]" label_values).
  { intros Hin. apply Hset in Hin.
    now destruct (@all_labels_shape _ _ _ _ Hlabels Hin). }
  assert (HX : ~ In "X" label_values).
  { intros Hin. apply Hset in Hin.
    now destruct (@all_labels_shape _ _ _ _ Hlabels Hin). }
  rewrite (@label2id_items _ Hnd Hpad HX).
  pose proof (@NoDup_keys_label_items _ Hnd Hpad HX) as Hkeys.
  pose proof (NoDup_values_label_items label_values) as Hvals.
  split; [reflexivity|]. split; [|split; [|split]].
  - intros t Ht.
    destruct (dict_get_key String.eqb String.eqb_eq
                (label_items label_values) t) as [i Hi].
    { rewrite keys_label_items. right. apply in_or_app. left.
      now apply Hset. }
    exists i. split; [exact Hi|].
    apply (dict_get_In String.eqb String.eqb_eq) in Hi.
    apply (@label_items_nonneg _ _ _ Hi).
    now destruct (@all_labels_shape _ _ _ _ Hlabels Ht).
  - intros t1 t2 i H1 H2.
    apply (dict_get_In String.eqb String.eqb_eq) in H1, H2.
    exact (@nodup_snd_inj _ _ _ _ _ _ Hvals H1 H2).
  - apply (In_dict_get String.eqb String.eqb_eq); [exact Hkeys|].
    unfold label_items. apply in_or_app. right. now left.
  - exists (map swap (label_items label_values)).
    split; [now apply id2label_swap|].
    intros t i Hi. apply (dict_get_In String.eqb String.eqb_eq) in Hi.
    apply (In_dict_get Z.eqb Z.eqb_eq).
    + unfold keys. rewrite map_map. exact Hvals.
    + apply in_map_iff. exists (t, i). split; [reflexivity | exact Hi].
Qed.

Lemma nodup_list_of_set (xs : list string) :
  list_of_set xs (nodup string_dec xs).
Proof. split; [apply NoDup_nodup | intros x; apply nodup_In]. Qed.

Lemma label2id_roundtrip_witness :
  dict_get String.eqb
    (label2id (nodup string_dec (concat [sample_labels]))) "[PAD]"
  = Some 0%Z /\
  (forall t, In t (concat [sample_labels]) ->
     exists i,
       dict_get String.eqb
         (label2id (nodup string_dec (concat [sample_labels]))) t = Some i /\
       (0 <= i)%Z) /\
  (forall t1 t2 i,
     dict_get String.eqb
       (label2id (nodup string_dec (concat [sample_labels]))) t1 = Some i ->
     dict_get String.eqb
       (label2id (nodup string_dec (concat [sample_labels]))) t2 = Some i ->
     t1 = t2) /\
  dict_get String.eqb
    (label2id (nodup string_dec (concat [sample_labels]))) "X"
  = Some (-100)%Z /\
  exists inverse,
    id2label (label2id (nodup string_dec (concat [sample_labels])))
    = Ok inverse /\
    forall t i,
      dict_get String.eqb
        (label2id (nodup string_dec (concat [sample_labels]))) t = Some i ->
      dict_get Z.eqb inverse i = Some t.
Proof.
  apply (@label2id_roundtrip sample_df sample_cols [sample_labels]
           (nodup string_dec (concat [sample_labels]))).
  - vm_compute. reflexivity.
  - apply nodup_list_of_set.
Defined.

(* ================================================================== *)
(** ** Padding *)

Lemma tags_loop_members (counts : list Z) (items : list (nat * string))
  (acc res : list string) :
  for_each (tag_step counts) items acc = Ok res ->
  forall x, In x res -> In x acc \/ In x (map snd items) \/ x = "X".
Proof.
  revert acc. induction items as [|[i tag] items IH]; intros acc H x Hx.
  - cbn in H. apply Ok_inj in H. subst res. now left.
  - cbn [for_each] in H. apply bind_ok in H as (acc' & Hstep & Hrest).
    unfold tag_step in Hstep. apply bind_ok in Hstep as (n & _ & Hacc).
    apply Ok_inj in Hacc. subst acc'. rewrite chars_X in Hrest.
    destruct (IH _ Hrest x Hx) as [Hin|[Hin| ->]].
    + apply in_app_or in Hin as [Hin|Hin].
      * apply in_app_or in Hin as [Hin|[<-|[]]]; [now left|].
        right. left. now left.
      * apply repeat_spec in Hin. now right; right.
    + right. left. now right.
    + now right; right.
Qed.

Lemma logs_loop_members (tokenizer : list string -> list Z)
  (pairs : list (string * list string)) (acc out : list (list string)) :
  for_each
    (fun subword_labels '(log, tags) =>
       temp_tags <- for_each (tag_step (tokenizer (split log)))
                      (enumerate tags) [] ;;
       Ok (subword_labels ++ [temp_tags]))
    pairs acc = Ok out ->
  forall temp_tags, In temp_tags out ->
    In temp_tags acc \/
    forall x, In x temp_tags -> In x (concat (map snd pairs)) \/ x = "X".
Proof.
  revert acc. induction pairs as [|[log tags] pairs IH]; intros acc H seq Hseq.
  - cbn in H. apply Ok_inj in H. subst out. now left.
  - cbn [for_each] in H. apply bind_ok in H as (acc' & Hstep & Hrest).
    apply bind_ok in Hstep as (temp & Htemp & Hacc).
    apply Ok_inj in Hacc. subst acc'.
    destruct (IH _ Hrest seq Hseq) as [Hin|Hin].
    + apply in_app_or in Hin as [Hin|[<-|[]]]; [now left | right].
      intros x Hx.
      destruct (tags_loop_members _ _ _ Htemp x Hx) as [[]|[Hin| ->]];
        [left | now right].
      unfold enumerate in Hin.
      rewrite map_snd_combine in Hin by apply length_seq.
      cbn [map snd concat]. apply in_or_app. now left.
    + right. intros x Hx. destruct (Hin x Hx) as [Hc|HX]; [left | now right].
      cbn [map snd concat]. apply in_or_app. now right.
Qed.

Lemma subword_labeler_members (tokenizer : list string -> list Z)
  (log_list : list string) (label_list subword_labels : list (list string)) :
  subword_labeler tokenizer log_list label_list = Ok subword_labels ->
  forall temp_tags x, In temp_tags subword_labels -> In x temp_tags ->
    In x (concat label_list) \/ x = "X".
Proof.
  intros H seq x Hseq Hx.
  destruct (logs_loop_members _ _ _ H seq Hseq) as [[]|Hin].
  destruct (Hin x Hx) as [Hc|HX]; [left | now right].
  apply in_concat in Hc as (tags & Htags & Hxt).
  apply in_concat. exists tags. split; [|exact Hxt].
  apply in_map_iff in Htags as ([log tags'] & E & Hpair). cbn in E. subst.
  now apply in_combine_r in Hpair.
Qed.

Lemma keys_label2id_fold (items : list (nat * string)) (d : dict string Z)
  (t : string) :
  In t (keys (fold_left
                (fun d '(i, t) => dict_set String.eqb d t (Z.of_nat i))
                items d))
  <-> In t (keys d) \/ In t (map snd items).
Proof.
  revert d. induction items as [|[i t'] items IH]; intros d.
  - cbn. tauto.
  - cbn [fold_left map snd In]. rewrite IH.
    rewrite (keys_dict_set String.eqb String.eqb_eq). intuition congruence.
Qed.

Lemma keys_label2id (label_values : list string) (t : string) :
  In t (keys (label2id label_values))
  <-> t = "[PAD]" \/ In t label_values \/ t = "X".
Proof.
  unfold label2id. rewrite (keys_dict_set String.eqb String.eqb_eq).
  rewrite keys_label2id_fold. unfold enumerate, slice_assign.
  cbn [firstn Nat.max skipn app].
  rewrite map_snd_combine by apply length_seq.
  cbn [keys map In]. intuition congruence.
Qed.

Lemma in_firstn {A : Type} (n : nat) (l : list A) (x : A) :
  In x (firstn n l) -> In x l.
Proof.
  intros H. rewrite <- (firstn_skipn n l). apply in_or_app. now left.
Qed.

Lemma length_padded (x : list string) :
  length (pad (slice x 0 512) "[PAD]" 512%Z) = 512.
Proof.
  unfold pad, slice, times. rewrite length_app, repeat_length.
  replace (512 - 0) with 512 by lia. cbn [skipn].
  rewrite length_firstn. lia.
Qed.

(** C10.  [pad(l, content, width)] is [l] followed by [width - len(l)]
    copies of [content] when [l] is shorter than [width], and [l] itself
    otherwise; every element of [padded_labels] has length 512; and every
    row of [int_labels] holds 512 integers, none of them [None]. *)
Theorem padded_labels_width (tokenizer : list string -> list Z)
  (log_list : list string) (labels subword_labels : list (list string))
  (label_values : list string) :
  list_of_set (concat labels) label_values ->
  subword_labeler tokenizer log_list labels = Ok subword_labels ->
  (forall (A : Type) (l : list A) (content : A) (width : Z),
     (Z.of_nat (length l) < width)%Z ->
     pad l content width = l ++ repeat content (Z.to_nat width - length l)) /\
  (forall (A : Type) (l : list A) (content : A) (width : Z),
     (width <= Z.of_nat (length l))%Z -> pad l content width = l) /\
  (forall x, In x (padded_labels subword_labels) -> length x = 512) /\
  (forall lab,
     In lab (int_labels (label2id label_values)
               (padded_labels subword_labels)) ->
     length lab = 512 /\ forall e, In e lab -> exists i : Z, e = Some i).
Proof.
  intros [_ Hset] Hsub. split; [|split; [|split]].
  - intros A l content width Hlt. unfold pad, times. do 2 f_equal. lia.
  - intros A l content width Hge. unfold pad, times.
    replace (Z.to_nat (width - Z.of_nat (length l))) with 0 by lia.
    apply app_nil_r.
  - intros x Hx. apply in_map_iff in Hx as (x0 & <- & _).
    apply length_padded.
  - intros lab Hlab. apply in_map_iff in Hlab as (padded & <- & Hpadded).
    apply in_map_iff in Hpadded as (x & <- & Hx).
    split; [rewrite length_map; apply length_padded|].
    intros e He. apply in_map_iff in He as (l & <- & Hl).
    apply (dict_get_key String.eqb String.eqb_eq). apply keys_label2id.
    unfold pad, times, slice in Hl. apply in_app_or in Hl as [Hl|Hl].
    + apply in_firstn in Hl. cbn [skipn] in Hl.
      destruct (@subword_labeler_members _ _ _ _ Hsub _ _ Hx Hl) as [Hc| ->];
        [|now right; right].
      right. left. now apply Hset.
    + apply repeat_spec in Hl. now left.
Qed.

Lemma padded_labels_width_witness :
  (forall (A : Type) (l : list A) (content : A) (width : Z),
     (Z.of_nat (length l) < width)%Z ->
     pad l content width = l ++ repeat content (Z.to_nat width - length l)) /\
  (forall (A : Type) (l : list A) (content : A) (width : Z),
     (width <= Z.of_nat (length l))%Z -> pad l content width = l) /\
  (forall x,
     In x (padded_labels [["O"; "X"; "B-t"]; ["O"; "X"; "X"]]) ->
     length x = 512) /\
  (forall lab,
     In lab (int_labels
               (label2id (nodup string_dec (concat [["O"; "B-t"]; ["O"]])))
               (padded_labels [["O"; "X"; "B-t"]; ["O"; "X"; "X"]])) ->
     length lab = 512 /\ forall e, In e lab -> exists i : Z, e = Some i).
Proof.
  apply (@padded_labels_width sample_tokenizer ["ab c"; "xyz"]
           [["O"; "B-t"]; ["O"]] [["O"; "X"; "B-t"]; ["O"; "X"; "X"]]
           (nodup string_dec (concat [["O"; "B-t"]; ["O"]]))).
  - apply nodup_list_of_set.
  - vm_compute. reflexivity.
Defined.

(* ================================================================== *)
(** ** The evaluation loop *)

Section EvaluationFacts.
Variable id2label : dict Z string.

Lemma compare_tokens_cons (L P : list (list Z)) (i j : nat) (m : Z)
  (items : list (nat * Z)) (temps : list string * list string) :
  compare_tokens id2label L P i ((j, m) :: items) temps
  = if negb (Z.eqb m 0) then
      temps' <- token_step id2label L P i j temps ;;
      compare_tokens id2label L P i items temps'
    else Ok temps.
Proof.
  cbn [compare_tokens]. destruct (negb (Z.eqb m 0)); [|reflexivity].
  unfold token_step, cell_at.
  destruct (getitem L i) as [label_row|e]; [|reflexivity]. cbn [bind].
  destruct (getitem label_row j) as [label_id|e]; [|reflexivity].
  cbn [bind].
  destruct (dict_getitem Z.eqb id2label label_id) as [label|e];
    [|reflexivity].
  cbn [bind].
  destruct (negb (String.eqb label "X") && negb (String.eqb label "[PAD]"));
    [|reflexivity].
  destruct (getitem P i) as [logit_row|e]; [|reflexivity]. cbn [bind].
  destruct (getitem logit_row j) as [logit|e]; [|reflexivity]. cbn [bind].
  destruct (dict_getitem Z.eqb id2label logit) as [pred|e]; reflexivity.
Qed.

Lemma token_step_clean (L P : list (list Z)) (i j : nat)
  (temps temps' : list string * list string) :
  token_step id2label L P i j temps = Ok temps' ->
  clean temps -> clean temps'.
Proof.
  unfold token_step. intros H (HX & Hpad & Hlen).
  apply bind_ok in H as (label_id & _ & H).
  apply bind_ok in H as (label & _ & H).
  destruct (String.eqb_spec label "X") as [|HnX]; cbn [negb andb] in H.
  { apply Ok_inj in H. subst temps'. now repeat split. }
  destruct (String.eqb_spec label "[PAD]") as [|Hnpad]; cbn [negb] in H.
  { apply Ok_inj in H. subst temps'. now repeat split. }
  apply bind_ok in H as (logit & _ & H).
  apply bind_ok in H as (pred & _ & H).
  apply Ok_inj in H. subst temps'. cbn [fst snd]. repeat split.
  - intros Hin. apply in_app_or in Hin as [Hin|[E|[]]]; congruence.
  - intros Hin. apply in_app_or in Hin as [Hin|[E|[]]]; congruence.
  - cbn [fst snd]. rewrite !length_app. cbn [length]. lia.
Qed.

Lemma compare_tokens_clean (L P : list (list Z)) (i : nat)
  (items : list (nat * Z)) (temps temps' : list string * list string) :
  compare_tokens id2label L P i items temps = Ok temps' ->
  clean temps -> clean temps'.
Proof.
  revert temps. induction items as [|[j m] items IH]; intros temps H Hc.
  - cbn in H. apply Ok_inj in H. now subst.
  - rewrite compare_tokens_cons in H. destruct (negb (Z.eqb m 0)).
    + apply bind_ok in H as (t1 & Hstep & Hrest).
      apply (IH _ Hrest). eapply token_step_clean; eassumption.
    + apply Ok_inj in H. now subst.
Qed.

(** The loop stops at the first zero of the mask. *)
Lemma compare_tokens_prefix (L P : list (list Z)) (i : nat) (mask : list Z)
  (k : nat) (temps : list string * list string) :
  compare_tokens id2label L P i (combine (seq k (length mask)) mask) temps
  = compare_tokens id2label L P i
      (combine (seq k (length (live_prefix mask))) (live_prefix mask)) temps.
Proof.
  revert k temps. induction mask as [|m mask IH]; intros k temps;
    [reflexivity|].
  cbn [length seq combine live_prefix]. rewrite compare_tokens_cons.
  destruct (Z.eqb m 0) eqn:E; cbn [negb]; [reflexivity|].
  cbn [length seq combine]. rewrite compare_tokens_cons, E. cbn [negb].
  destruct (token_step id2label L P i k temps) as [t1|e]; cbn [bind];
    [apply IH | reflexivity].
Qed.

(** It reads the rows only at the positions it visits. *)
Lemma compare_tokens_rows (L P L' P' : list (list Z)) (i : nat)
  (items : list (nat * Z)) (temps : list string * list string) :
  (forall j m, In (j, m) items ->
     cell_at L' i j = cell_at L i j /\ cell_at P' i j = cell_at P i j) ->
  compare_tokens id2label L' P' i items temps
  = compare_tokens id2label L P i items temps.
Proof.
  revert temps. induction items as [|[j m] items IH]; intros temps Hrows;
    [reflexivity|].
  rewrite !compare_tokens_cons. destruct (negb (Z.eqb m 0)); [|reflexivity].
  destruct (Hrows j m (or_introl eq_refl)) as [EL EP].
  unfold token_step. rewrite EL, EP. fold (token_step id2label L P i j temps).
  destruct (token_step id2label L P i j temps) as [t1|e]; cbn [bind];
    [|reflexivity].
  apply IH. intros j' m' Hin. apply (Hrows j' m'). now right.
Qed.
End EvaluationFacts.

Lemma for_each_ext {A S : Type} (body1 body2 : S -> A -> result S)
  (xs : list A) (st : S) :
  (forall x, In x xs -> forall st, body1 st x = body2 st x) ->
  for_each body1 xs st = for_each body2 xs st.
Proof.
  revert st. induction xs as [|x xs IH]; intros st H; [reflexivity|].
  cbn [for_each]. rewrite (H x (or_introl eq_refl)).
  destruct (body2 st x) as [st'|e]; cbn [bind]; [|reflexivity].
  apply IH. intros y Hy. apply H. now right.
Qed.

Lemma for_each_map {A B S : Type} (body : S -> B -> result S) (g : A -> B)
  (xs : list A) (st : S) :
  for_each body (map g xs) st = for_each (fun st x => body st (g x)) xs st.
Proof.
  revert st. induction xs as [|x xs IH]; intros st; [reflexivity|].
  cbn [map for_each]. destruct (body st (g x)) as [st'|e]; cbn [bind];
    [apply IH | reflexivity].
Qed.

Lemma combine_map_r {A B C : Type} (f : B -> C) (xs : list A) (l : list B) :
  combine xs (map f l) = map (fun p => (fst p, f (snd p))) (combine xs l).
Proof.
  revert l. induction xs as [|x xs IH]; intros [|y l]; try reflexivity.
  cbn. now rewrite IH.
Qed.

Lemma enumerate_map {A B : Type} (f : A -> B) (l : list A) :
  enumerate (map f l) = map (fun p => (fst p, f (snd p))) (enumerate l).
Proof. unfold enumerate. now rewrite length_map, combine_map_r. Qed.

Lemma nth_error_combine_l {A B : Type} (l : list A) (l' : list B) (i : nat)
  (a : A) :
  nth_error l i = Some a ->
  nth_error (combine l l') i = option_map (pair a) (nth_error l' i).
Proof.
  revert l l'. induction i as [|i IH]; intros [|x l] [|y l'] H;
    try discriminate H; try reflexivity.
  - cbn in *. congruence.
  - cbn in *. now apply IH.
Qed.

Lemma cell_at_visible (masks rows : list (list Z)) (mask : list Z)
  (i j : nat) :
  nth_error masks i = Some mask -> j < length (live_prefix mask) ->
  cell_at (visible_rows masks rows) i j = cell_at rows i j.
Proof.
  intros Hi Hj. unfold cell_at, getitem, visible_rows.
  rewrite nth_error_map, (@nth_error_combine_l _ _ _ rows _ _ Hi).
  destruct (nth_error rows i) as [row|]; [|reflexivity].
  cbn [option_map bind]. rewrite nth_error_firstn.
  now destruct (Nat.ltb_spec j (length (live_prefix mask))); [|lia].
Qed.

Section VisibleFacts.
Variable id2label : dict Z string.

Lemma row_visible (masks L P : list (list Z)) (mask : list Z) (i : nat)
  (temps : list string * list string) :
  nth_error masks i = Some mask ->
  compare_tokens id2label (visible_rows masks L) (visible_rows masks P) i
    (enumerate (live_prefix mask)) temps
  = compare_tokens id2label L P i (enumerate mask) temps.
Proof.
  intros Hi. unfold enumerate.
  rewrite (compare_tokens_prefix id2label L P i mask 0 temps).
  apply compare_tokens_rows. intros j m Hin.
  apply in_combine_l, in_seq in Hin.
  split; apply (@cell_at_visible _ _ _ _ _ Hi); lia.
Qed.

Lemma eval_batch_visible (ys : list (list string) * list (list string))
  (b : batch) :
  eval_batch id2label ys (visible b) = eval_batch id2label ys b.
Proof.
  unfold eval_batch, visible. cbn [input_mask label_ids logits].
  rewrite enumerate_map, for_each_map.
  apply for_each_ext. intros [i mask] Hin st. cbn [fst snd].
  apply in_enumerate in Hin. now rewrite (@row_visible _ _ _ _ _ _ Hin).
Qed.

Lemma evaluation_visible (batches : list batch) :
  evaluation id2label (map visible batches) = evaluation id2label batches.
Proof.
  unfold evaluation. rewrite for_each_map. apply for_each_ext.
  intros b _ ys. apply eval_batch_visible.
Qed.

Lemma rows_loop_comparable (L P : list (list Z))
  (items : list (nat * list Z))
  (ys ys' : list (list string) * list (list string)) :
  for_each
    (fun ys '(i, mask) =>
       temps <- compare_tokens id2label L P i (enumerate mask) ([], []) ;;
       Ok (fst ys ++ [fst temps], snd ys ++ [snd temps]))
    items ys = Ok ys' ->
  Forall2 comparable (fst ys) (snd ys) ->
  Forall2 comparable (fst ys') (snd ys') /\
  length (fst ys') = length (fst ys) + length items.
Proof.
  revert ys. induction items as [|[i mask] items IH]; intros ys H Hys.
  - cbn in H. apply Ok_inj in H. subst ys'. split; [exact Hys | cbn; lia].
  - cbn [for_each] in H. apply bind_ok in H as (ys1 & Hstep & Hrest).
    apply bind_ok in Hstep as (temps & Htemps & E).
    apply Ok_inj in E. subst ys1.
    apply compare_tokens_clean in Htemps;
      [|repeat split; intros []].
    destruct (IH _ Hrest) as [Hall Hlen].
    { cbn [fst snd]. apply Forall2_app; [exact Hys|].
      constructor; [exact Htemps | constructor]. }
    split; [exact Hall|]. rewrite Hlen. cbn [fst length].
    rewrite length_app. cbn [length]. lia.
Qed.

Lemma batches_loop_comparable (batches : list batch)
  (ys ys' : list (list string) * list (list string)) :
  for_each (eval_batch id2label) batches ys = Ok ys' ->
  Forall2 comparable (fst ys) (snd ys) ->
  Forall2 comparable (fst ys') (snd ys') /\
  length (fst ys')
  = length (fst ys) + length (concat (map input_mask batches)).
Proof.
  revert ys. induction batches as [|b batches IH]; intros ys H Hys.
  - cbn in H. apply Ok_inj in H. subst ys'. split; [exact Hys | cbn; lia].
  - cbn [for_each] in H. apply bind_ok in H as (ys1 & Hb & Hrest).
    unfold eval_batch in Hb.
    destruct (@rows_loop_comparable _ _ _ _ _ Hb Hys) as [H1 Hlen1].
    destruct (IH _ Hrest H1) as [H2 Hlen2].
    split; [exact H2|]. rewrite Hlen2, Hlen1. cbn [map concat].
    unfold enumerate. rewrite length_app, length_combine, length_seq. lia.
Qed.
End VisibleFacts.

(** C8.  When the evaluation loop ends, [y_true] and [y_pred] hold one
    sequence per row of the masks; a sequence of [y_true] holds neither
    ['X'] nor ['[PAD]'] and the sequence of [y_pred] at the same place has
    its length; and the loop gives the same on the batches with everything
    from the first zero of each mask on removed, so that no position from
    there on is compared. *)
Theorem evaluation_compares_before_first_zero (id2label : dict Z string)
  (batches : list batch) (y_true y_pred : list (list string)) :
  evaluation id2label batches = Ok (y_true, y_pred) ->
  length y_true = length (concat (map input_mask batches)) /\
  Forall2
    (fun temp_1 temp_2 =>
       ~ In "X" temp_1 /\ ~ In "[PAD]" temp_1 /\
       length temp_2 = length temp_1)
    y_true y_pred /\
  evaluation id2label (map visible batches) = Ok (y_true, y_pred).
Proof.
  intros H. split; [|split].
  - destruct (@batches_loop_comparable id2label batches ([], []) _ H)
      as [_ Hlen]; [constructor | exact Hlen].
  - destruct (@batches_loop_comparable id2label batches ([], []) _ H)
      as [Hall _]; [constructor | exact Hall].
  - now rewrite evaluation_visible.
Qed.

Lemma evaluation_compares_before_first_zero_witness :
  length [["O"; "B-t"]] = length (concat (map input_mask sample_batches)) /\
  Forall2
    (fun temp_1 temp_2 =>
       ~ In "X" temp_1 /\ ~ In "[PAD]" temp_1 /\
       length temp_2 = length temp_1)
    [["O"; "B-t"]] [["B-t"; "O"]] /\
  evaluation sample_id2label (map visible sample_batches)
  = Ok ([["O"; "B-t"]], [["B-t"; "O"]]).
Proof.
  apply (@evaluation_compares_before_first_zero sample_id2label
           sample_batches [["O"; "B-t"]] [["B-t"; "O"]]).
  vm_compute. reflexivity.
Defined.


(* ================================================================== *)
(** * Further properties *)

(** ** [punctuation_spliter] *)

Lemma spread_app (syms : list ascii) (a b : string) :
  spread syms (a ++ b)%string = (spread syms a ++ spread syms b)%string.
Proof.
  induction a as [|c a IH]; [reflexivity|].
  cbn [append spread]. destruct (mem c syms); cbn [append]; now rewrite IH.
Qed.

(** X1.  [punctuation_spliter] works character by character: the result
    for a concatenation is the concatenation of the results, and the empty
    text gives the empty text. *)
Theorem punctuation_spliter_app (a b : string) :
  punctuation_spliter (a ++ b)%string
  = (punctuation_spliter a ++ punctuation_spliter b)%string /\
  punctuation_spliter EmptyString = EmptyString.
Proof.
  rewrite !punctuation_spliter_spread. split; [apply spread_app | reflexivity].
Qed.

Lemma spread_length (text : string) :
  String.length (spread punctuation text)
  = String.length text + 2 * count_punctuation text.
Proof.
  unfold count_punctuation. induction text as [|c text IH]; [reflexivity|].
  cbn [spread list_ascii_of_string filter].
  destruct (mem c punctuation); cbn [String.length length]; rewrite IH; lia.
Qed.

Lemma spread_plain (text : string) :
  plain text -> spread punctuation text = text.
Proof.
  induction text as [|c text IH]; intros Hplain; [reflexivity|].
  cbn [spread]. destruct (mem c punctuation) eqn:Hc.
  - exfalso. apply (Hplain c); [now left | now apply mem_In].
  - f_equal. apply IH. intros d Hd. apply Hplain. now right.
Qed.

(** X2.  The result is two characters longer than the text for every
    punctuation character in it; a text without punctuation is returned as
    it is. *)
Theorem punctuation_spliter_length (text : string) :
  String.length (punctuation_spliter text)
  = String.length text + 2 * count_punctuation text /\
  ((forall c, In c (list_ascii_of_string text) -> ~ In c punctuation) ->
   punctuation_spliter text = text).
Proof.
  rewrite punctuation_spliter_spread.
  split; [apply spread_length | apply spread_plain].
Qed.

Lemma split_from_respread (text cur : string) :
  split_from cur (spread punctuation (spread punctuation text))
  = split_from cur (spread punctuation text).
Proof.
  revert cur. induction text as [|c text IH]; intros cur; [reflexivity|].
  cbn [spread]. destruct (mem c punctuation) eqn:Hc.
  - cbn [spread]. change (mem " " punctuation) with false. cbn iota.
    rewrite Hc. cbn [split_from]. change (isspace " ") with true. cbn iota.
    rewrite (punctuation_not_space _ Hc). cbn [flush app append].
    change (isspace " ") with true. cbn iota. cbn [flush app].
    now rewrite IH.
  - cbn [spread]. rewrite Hc. cbn [split_from].
    destruct (isspace c); now rewrite IH.
Qed.

(** X3.  Splitting a text twice gives the tokens of splitting it once:
    the raw log is split before [labeler] sees it, and a value taken from
    it may be split again without changing its tokens. *)
Theorem punctuation_spliter_twice (text : string) :
  split (punctuation_spliter (punctuation_spliter text))
  = split (punctuation_spliter text).
Proof.
  rewrite !punctuation_spliter_spread. apply split_from_respread.
Qed.

Lemma split_from_app_space (a b cur : string) (c : ascii) :
  isspace c = true ->
  split_from cur (a ++ String c b)%string = split_from cur a ++ split b.
Proof.
  intros Hc. revert cur. induction a as [|d a IH]; intros cur.
  - cbn [append split_from]. now rewrite Hc.
  - cbn [append split_from]. destruct (isspace d).
    + rewrite IH. now rewrite app_assoc.
    + apply IH.
Qed.

Lemma space_not_punctuation (c : ascii) :
  isspace c = true -> mem c punctuation = false.
Proof.
  intros Hc. destruct (mem c punctuation) eqn:E; [|reflexivity].
  apply punctuation_not_space in E. congruence.
Qed.

Lemma tokens_between_spaces (a v b : string) (c1 c2 : ascii) :
  isspace c1 = true -> isspace c2 = true ->
  split (punctuation_spliter (a ++ String c1 (v ++ String c2 b))%string)
  = split (punctuation_spliter a) ++ split (punctuation_spliter v)
    ++ split (punctuation_spliter b).
Proof.
  intros H1 H2. rewrite !punctuation_spliter_spread.
  rewrite spread_app. cbn [spread]. rewrite (space_not_punctuation _ H1).
  rewrite spread_app. cbn [spread]. rewrite (space_not_punctuation _ H2).
  unfold split. rewrite (split_from_app_space _ _ _ _ H1). f_equal.
  apply (split_from_app_space _ _ _ _ H2).
Qed.

(** X4.  A value that stands in a text between two whitespace characters
    gives, after splitting, a run of the text's tokens: the tokens of what
    is before it, its own tokens, the tokens of what is after it. *)
Theorem value_tokens_contiguous (a v b : string) (c1 c2 : ascii) :
  isspace c1 = true -> isspace c2 = true ->
  split (punctuation_spliter (a ++ String c1 (v ++ String c2 b))%string)
  = split (punctuation_spliter a) ++ split (punctuation_spliter v)
    ++ split (punctuation_spliter b).
Proof. apply tokens_between_spaces. Qed.

Lemma value_tokens_contiguous_witness :
  split (punctuation_spliter
           ("15:42:01" ++ String " " ("example.com" ++ String " " "A"))%string)
  = split (punctuation_spliter "15:42:01")
    ++ split (punctuation_spliter "example.com")
    ++ split (punctuation_spliter "A").
Proof.
  apply (@value_tokens_contiguous "15:42:01" "example.com" "A" " " " ");
    reflexivity.
Defined.

(* ================================================================== *)
(** ** [labeler] *)

Lemma nth_error_ext {A : Type} (l xs : list A) :
  (forall p, nth_error l p = nth_error xs p) -> l = xs.
Proof.
  revert xs. induction l as [|x l IH]; intros [|y xs] H.
  - reflexivity.
  - specialize (H 0). discriminate H.
  - specialize (H 0). discriminate H.
  - pose proof (H 0) as H0. cbn in H0. apply Ok_inj_some in H0. subst y.
    f_equal. apply IH. intros p. apply (H (S p)).
Qed.

Lemma slice_repeat_intro {A : Type} (l : list A) (a n : nat) (x : A) :
  (forall q, a <= q < a + n -> nth_error l q = Some x) ->
  slice l a (a + n) = repeat x n.
Proof.
  intros H. apply nth_error_ext. intros p. rewrite nth_error_slice.
  destruct (Nat.ltb_spec p n) as [Hp|Hp].
  - rewrite nth_error_repeat by exact Hp. apply H. lia.
  - symmetry. apply nth_error_None. rewrite repeat_length. exact Hp.
Qed.

(** The turn of one column inside a call of [labeler]. *)
Lemma column_turn (logs_df : list row) (index_no : nat)
  (cols1 cols2 : list string) (col : string) (final : list string) (r : row) :
  nth_error logs_df index_no = Some r ->
  labeler logs_df index_no (cols1 ++ col :: cols2) = Ok final ->
  exists before after,
    tagged r (split (raw_preprocess r)) cols1 before /\
    label_col r (split (raw_preprocess r)) before col = Ok after /\
    for_each (label_col r (split (raw_preprocess r))) cols2 after = Ok final.
Proof.
  intros Hr H. rewrite (@labeler_at _ _ _ _ Hr) in H.
  rewrite for_each_app in H. apply bind_ok in H as (before & Hbefore & H).
  cbn [for_each] in H. apply bind_ok in H as (after & Hstep & Hrest).
  exists before, after. split; [|split; assumption].
  change cols1 with ([] ++ cols1).
  eapply columns_tagged; [apply tagged_init | exact Hbefore].
Qed.



(** X6.  For a raw log without tokens [labeler] returns the empty list,
    whatever the columns hold. *)
Theorem labeler_empty_log (logs_df : list row) (index_no : nat)
  (cols : list string) (r : row) :
  nth_error logs_df index_no = Some r ->
  split (raw_preprocess r) = [] ->
  labeler logs_df index_no cols = Ok [].
Proof.
  intros Hr Hraw. rewrite (@labeler_at _ _ _ _ Hr).
  destruct (columns_total r cols (or_introl Hraw)
              (times "O" (Z.of_nat (length (split (raw_preprocess r))))))
    as [labels H].
  rewrite H. f_equal.
  assert (Htag : tagged r (split (raw_preprocess r)) ([] ++ cols) labels)
    by (eapply columns_tagged; [apply tagged_init | exact H]).
  destruct Htag as [Hlen _]. rewrite Hraw in Hlen.
  now destruct labels.
Qed.

Lemma labeler_empty_log_witness :
  labeler [mk_row "  " (fun _ => " ")] 0 ["a"; "b"] = Ok [].
Proof.
  apply (@labeler_empty_log [mk_row "  " (fun _ => " ")] 0 ["a"; "b"]
           (mk_row "  " (fun _ => " "))); reflexivity.
Defined.

(** X7.  No occurrence is passed over: when the value of a column that
    is not skipped still occurs on positions that all carry ['O'] in the
    list [labeler] returns, the column has labelled an earlier occurrence
    of it. *)
Theorem labeler_unlabelled_occurrence_is_later (logs_df : list row)
  (index_no : nat) (cols labels : list string) (r : row) (col : string)
  (ind : nat) :
  nth_error logs_df index_no = Some r ->
  labeler logs_df index_no cols = Ok labels ->
  In col cols ->
  skipped (cell r col) = false ->
  free_at (split (raw_preprocess r))
    (split (punctuation_spliter (cell r col))) labels ind ->
  exists p,
    p < ind /\
    nth_error labels p = Some ("B-" ++ col)%string /\
    slice (split (raw_preprocess r)) p
      (p + length (split (punctuation_spliter (cell r col))))
    = split (punctuation_spliter (cell r col)).
Proof.
  intros Hr H Hcol Hskip Hfree.
  apply in_split in Hcol as (cols1 & cols2 & ->).
  destruct (@column_turn _ _ _ _ _ _ _ Hr H)
    as (before & after & Hbefore & Hstep & Hrest).
  fold (sublist_of r col) in *.
  change ("B-" ++ col)%string with (begin_tag col).
  set (raw := split (raw_preprocess r)) in *.
  set (n := length (sublist_of r col)) in *.
  assert (Hlen : length before = length raw) by apply Hbefore.
  destruct Hfree as (Hind & Hraw & HO).
  assert (Hfree0 : free_at raw (sublist_of r col) before ind).
  { split; [exact Hind|]. split; [exact Hraw|]. fold n.
    apply slice_repeat_intro. intros q Hq.
    destruct (nth_error before q) as [lab|] eqn:Hb.
    - destruct (string_dec lab "O") as [->|Hne]; [reflexivity|].
      assert (Hq' : nth_error labels q = Some lab).
      { eapply columns_keep; [exact Hrest | | exact Hne].
        eapply label_col_keeps; eassumption. }
      rewrite (@slice_repeat_nth _ _ _ _ _ _ HO Hq) in Hq'. congruence.
    - apply nth_error_None in Hb.
      assert (Hfit : ind + n <= length raw).
      { eapply slice_within; [exact Hraw | reflexivity | lia]. }
      lia. }
  destruct (outcome_Ok (@label_col_Ok _ _ _ _ _ Hstep) eq_refl)
    as [[_ [Hs|Hnone]]|(p & _ & Hne & Hfp & Hmin & ->)].
  - congruence.
  - now apply Hnone in Hfree0.
  - destruct (free_at_fits Hne Hfp) as (Hn & Hfit & _ & HOp).
    assert (Hp : nth_error labels p = Some (begin_tag col)).
    { eapply columns_keep; [exact Hrest | | apply begin_not_O].
      rewrite (@write_span_in before p _ col Hn Hfit p) by (fold n; lia).
      now rewrite Nat.eqb_refl. }
    exists p. split; [|split; [exact Hp | apply Hfp]].
    destruct (Nat.lt_trichotomy p ind) as [Hlt|[->|Hgt]]; [exact Hlt | |].
    + rewrite (@slice_repeat_nth _ _ _ _ _ _ HO) in Hp by (fold n; lia).
      apply Ok_inj_some in Hp. symmetry in Hp. now apply begin_not_O in Hp.
    + now apply Hmin in Hfree0.
Qed.

Lemma labeler_unlabelled_occurrence_is_later_witness :
  exists p,
    p < 2 /\
    nth_error ["B-c"; "O"; "O"] p = Some ("B-" ++ "c")%string /\
    slice (split (raw_preprocess (mk_row "a b a" (fun _ => "a")))) p
      (p + length (split (punctuation_spliter
                            (cell (mk_row "a b a" (fun _ => "a")) "c"))))
    = split (punctuation_spliter (cell (mk_row "a b a" (fun _ => "a")) "c")).
Proof.
  apply (@labeler_unlabelled_occurrence_is_later
           [mk_row "a b a" (fun _ => "a")] 0 ["c"] ["B-c"; "O"; "O"]
           (mk_row "a b a" (fun _ => "a")) "c" 2).
  - reflexivity.
  - vm_compute. reflexivity.
  - now left.
  - reflexivity.
  - split; [vm_compute; lia | split; vm_compute; reflexivity].
Defined.

Lemma slice_middle {A : Type} (l1 l2 l3 : list A) :
  slice (l1 ++ l2 ++ l3) (length l1) (length l1 + length l2) = l2.
Proof.
  unfold slice. replace (length l1 + length l2 - length l1) with (length l2)
    by lia.
  rewrite skipn_app, Nat.sub_diag, skipn_all. cbn [skipn app].
  rewrite firstn_app, Nat.sub_diag, firstn_all. cbn [firstn].
  apply app_nil_r.
Qed.

(** X8.  The first column is labelled whenever it can be: if its cell is
    not skipped, has a token, and stands in the text of the raw log between
    two whitespace characters, the list [labeler] returns carries
    ['B-'+col] at the start of an occurrence of the value, at that place or
    before it. *)
Theorem labeler_first_column_labelled (logs_df : list row) (index_no : nat)
  (col : string) (cols labels : list string) (r : row) (a b : string)
  (c1 c2 : ascii) :
  nth_error logs_df index_no = Some r ->
  raw_preprocess r
  = punctuation_spliter (a ++ String c1 (cell r col ++ String c2 b))%string ->
  isspace c1 = true -> isspace c2 = true ->
  skipped (cell r col) = false ->
  split (punctuation_spliter (cell r col)) <> [] ->
  labeler logs_df index_no (col :: cols) = Ok labels ->
  exists p,
    p <= length (split (punctuation_spliter a)) /\
    nth_error labels p = Some ("B-" ++ col)%string /\
    slice (split (raw_preprocess r)) p
      (p + length (split (punctuation_spliter (cell r col))))
    = split (punctuation_spliter (cell r col)).
Proof.
  intros Hr Hraw H1 H2 Hskip Hne H.
  destruct (@column_turn _ _ [] _ _ _ _ Hr H)
    as (before & after & Hbefore & Hstep & Hrest).
  rewrite Hraw in *. rewrite (tokens_between_spaces _ _ _ _ _ H1 H2) in *.
  fold (sublist_of r col) in *.
  change ("B-" ++ col)%string with (begin_tag col).
  set (A := split (punctuation_spliter a)) in *.
  set (B := split (punctuation_spliter b)) in *.
  assert (Hn : 0 < length (sublist_of r col))
    by (destruct (sublist_of r col); [congruence | cbn; lia]).
  assert (Hfree0 : free_at (A ++ sublist_of r col ++ B) (sublist_of r col)
                     before (length A)).
  { split; [rewrite !length_app; lia|]. split; [apply slice_middle|].
    destruct Hbefore as (Hlen & Hlab & _).
    apply slice_repeat_intro. intros q Hq.
    destruct (nth_error before q) as [lab|] eqn:Hb.
    - destruct (Hlab _ _ Hb) as [->|(c & s & [] & _)]. reflexivity.
    - apply nth_error_None in Hb. rewrite Hlen, !length_app in Hb. lia. }
  destruct (outcome_Ok (@label_col_Ok _ _ _ _ _ Hstep) eq_refl)
    as [[_ [Hs|Hnone]]|(p & _ & _ & Hfp & Hmin & ->)].
  - congruence.
  - now apply Hnone in Hfree0.
  - destruct (free_at_fits Hne Hfp) as (_ & Hfit & _ & _).
    exists p. split; [|split; [|apply Hfp]].
    + destruct (Nat.le_gt_cases p (length A)) as [Hle|Hgt]; [exact Hle|].
      now apply Hmin in Hfree0.
    + eapply columns_keep; [exact Hrest | | apply begin_not_O].
      rewrite (@write_span_in before p _ col Hn Hfit p) by lia.
      now rewrite Nat.eqb_refl.
Qed.

Lemma labeler_first_column_labelled_witness :
  exists p,
    p <= length (split (punctuation_spliter "15:42:01 query")) /\
    nth_error ["O"; "O"; "O"; "O"; "O"; "O"; "B-name"; "I-name"; "I-name";
               "B-type"] p
    = Some ("B-" ++ "name")%string /\
    slice (split (raw_preprocess
                    (mk_row "15 : 42 : 01 query example . com A"
                       sample_cell))) p
      (p + length (split (punctuation_spliter
                            (cell (mk_row "15 : 42 : 01 query example . com A"
                                     sample_cell) "name"))))
    = split (punctuation_spliter
               (cell (mk_row "15 : 42 : 01 query example . com A"
                        sample_cell) "name")).
Proof.
  apply (@labeler_first_column_labelled sample_df 0 "name" ["type"; "flags"]
           ["O"; "O"; "O"; "O"; "O"; "O"; "B-name"; "I-name"; "I-name";
            "B-type"]
           (mk_row "15 : 42 : 01 query example . com A" sample_cell)
           "15:42:01 query" "A" " " " ").
  - reflexivity.
  - vm_compute. reflexivity.
  - reflexivity.
  - reflexivity.
  - reflexivity.
  - vm_compute. discriminate.
  - vm_compute. reflexivity.
Defined.

(* ================================================================== *)
(** ** The labelling loop and the label columns *)

Lemma map_m_Forall2 {A B : Type} (f : A -> result B) (xs : list A)
  (ys : list B) :
  map_m f xs = Ok ys <-> Forall2 (fun x y => f x = Ok y) xs ys.
Proof.
  revert ys. induction xs as [|x xs IH]; intros ys; cbn [map_m].
  - split.
    + intros H. apply Ok_inj in H. subst ys. constructor.
    + intros H. inversion H. reflexivity.
  - split.
    + intros H. apply bind_ok in H as (y & Hy & H).
      apply bind_ok in H as (ys' & Hys & H). apply Ok_inj in H. subst ys.
      constructor; [exact Hy | now apply IH].
    + intros H. inversion H as [|? y ? ys' Hy Hys]. subst.
      rewrite Hy. cbn [bind]. apply IH in Hys. now rewrite Hys.
Qed.

Lemma Forall2_seq {B : Type} (R : nat -> B -> Prop) (ys : list B)
  (k n : nat) :
  Forall2 R (seq k n) ys <->
  length ys = n /\
  forall i, i < n -> exists y, nth_error ys i = Some y /\ R (k + i) y.
Proof.
  revert k ys. induction n as [|n IH]; intros k ys; cbn [seq].
  - split.
    + intros H. inversion H. split; [reflexivity | intros i Hi; lia].
    + intros [Hlen _]. destruct ys; [constructor | discriminate Hlen].
  - split.
    + intros H. inversion H as [|? y ? ys' Hy Hys]. subst.
      apply IH in Hys as [Hlen Hnth]. split; [cbn; lia|].
      intros [|i] Hi.
      * exists y. rewrite Nat.add_0_r. now split.
      * destruct (Hnth i) as (y' & Hy' & HR); [lia|].
        exists y'. split; [exact Hy'|].
        now replace (k + S i) with (S k + i) by lia.
    + intros [Hlen Hnth]. destruct ys as [|y ys]; [discriminate Hlen|].
      constructor.
      * destruct (Hnth 0) as (y' & Hy' & HR); [lia|].
        cbn in Hy'. apply Ok_inj_some in Hy'. subst y'.
        now rewrite Nat.add_0_r in HR.
      * apply IH. split; [cbn in Hlen; lia|].
        intros i Hi. destruct (Hnth (S i)) as (y' & Hy' & HR); [lia|].
        exists y'. split; [exact Hy'|].
        now replace (S k + i) with (k + S i) by lia.
Qed.

(** X9.  The labelling loop returns [labels] exactly when [labeler]
    returns on every row of the frame; [labels] then has one list per row,
    the one [labeler] returns for it. *)
Theorem all_labels_rows (logs_df : list row) (cols : list string)
  (labels : list (list string)) :
  all_labels logs_df cols = Ok labels <->
  length labels = length logs_df /\
  forall indx, indx < length logs_df ->
    exists label_list,
      nth_error labels indx = Some label_list /\
      labeler logs_df indx cols = Ok label_list.
Proof.
  unfold all_labels. rewrite map_m_Forall2.
  apply (Forall2_seq (fun indx l => labeler logs_df indx cols = Ok l)).
Qed.

Lemma list_remove_None (x : string) (l : list string) :
  list_remove x l = None <-> ~ In x l.
Proof.
  induction l as [|y l IH]; cbn [list_remove In]; [tauto|].
  destruct (String.eqb_spec y x) as [->|Hne].
  - split; [discriminate | intros H; exfalso; apply H; now left].
  - destruct (list_remove x l) as [l'|].
    + split; [discriminate|]. intros H. exfalso.
      assert (Hin : In x l).
      { destruct (in_dec string_dec x l) as [Hin|Hnin]; [exact Hin|].
        apply IH in Hnin. discriminate Hnin. }
      apply H. now right.
    + split; [|reflexivity]. intros _ [E|Hin]; [congruence|].
      now apply (proj1 IH).
Qed.

Lemma list_remove_Some (x : string) (l l' : list string) :
  list_remove x l = Some l' ->
  (forall y, y <> x -> (In y l' <-> In y l)) /\
  (NoDup l -> l' = filter (fun y => negb (String.eqb y x)) l /\ NoDup l').
Proof.
  revert l'. induction l as [|y l IH]; intros l' H; [discriminate H|].
  cbn [list_remove] in H. cbn [filter].
  destruct (String.eqb_spec y x) as [->|Hne]; cbn [negb].
  - apply Ok_inj_some in H. subst l'. split.
    + intros y Hy. split; [now right | intros [E|Hin]; [congruence | exact Hin]].
    + intros Hnd. inversion Hnd as [|? ? Hx Hl]. subst. split; [|exact Hl].
      symmetry. apply forallb_filter_id. apply forallb_forall.
      intros z Hz. destruct (String.eqb_spec z x) as [->|]; [contradiction|].
      reflexivity.
  - destruct (list_remove x l) as [l''|]; [|discriminate H].
    apply Ok_inj_some in H. subst l'.
    destruct (IH l'' eq_refl) as [Hin Hfilter]. split.
    + intros z Hz. cbn [In]. rewrite (Hin z Hz). tauto.
    + intros Hnd. inversion Hnd as [|? ? Hy Hl]. subst.
      destruct (Hfilter Hl) as [-> Hnd']. split; [reflexivity|].
      constructor; [|exact Hnd'].
      intros Hyin. apply filter_In in Hyin as [Hyin _]. contradiction.
Qed.

(** X10.  Taking the label columns from the column names fails exactly
    when ['raw'] or ['raw_preprocess'] is not among them.  With distinct
    names it gives the other names in their order, and neither of the two
    is left. *)
Theorem label_columns_others (columns : list string) :
  (label_columns columns = None <->
   ~ (In "raw" columns /\ In "raw_preprocess" columns)) /\
  (NoDup columns -> forall cols, label_columns columns = Some cols ->
     cols = filter (fun c => negb (String.eqb c "raw")
                             && negb (String.eqb c "raw_preprocess")) columns
     /\ NoDup cols /\ ~ In "raw" cols /\ ~ In "raw_preprocess" cols).
Proof.
  unfold label_columns. split.
  - destruct (list_remove "raw" columns) as [cols1|] eqn:H1.
    + destruct (list_remove_Some _ _ H1) as [Hin _].
      rewrite list_remove_None, (Hin "raw_preprocess") by discriminate.
      split; [tauto|]. intros H Hp. apply H. split; [|exact Hp].
      destruct (in_dec string_dec "raw" columns) as [Hr|Hr]; [exact Hr|].
      apply list_remove_None in Hr. congruence.
    + apply list_remove_None in H1. split; [tauto | reflexivity].
  - intros Hnd cols H.
    destruct (list_remove "raw" columns) as [cols1|] eqn:H1; [|discriminate H].
    destruct (list_remove_Some _ _ H1) as [_ Hf1].
    destruct (Hf1 Hnd) as [-> Hnd1].
    destruct (list_remove_Some _ _ H) as [_ Hf2].
    destruct (Hf2 Hnd1) as [-> Hnd2].
    assert (E : filter (fun y => negb (String.eqb y "raw_preprocess"))
                  (filter (fun y => negb (String.eqb y "raw")) columns)
                = filter (fun c => negb (String.eqb c "raw")
                                   && negb (String.eqb c "raw_preprocess"))
                    columns).
    { clear. induction columns as [|c columns IH]; [reflexivity|].
      cbn [filter]. destruct (negb (String.eqb c "raw")); cbn [andb filter];
        [|exact IH].
      destruct (negb (String.eqb c "raw_preprocess")); now rewrite IH. }
    rewrite E in *. split; [reflexivity|]. split; [exact Hnd2|].
    split; intros Hin; apply filter_In in Hin as [_ Hin];
      rewrite String.eqb_refl in Hin; cbn in Hin;
      try rewrite andb_false_r in Hin; discriminate Hin.
Qed.

(* ================================================================== *)
(** ** Loops that may raise *)

Lemma for_each_Ok_each {A S : Type} (body : S -> A -> result S)
  (xs : list A) (st st' : S) :
  for_each body xs st = Ok st' ->
  forall x, In x xs -> exists s s', body s x = Ok s'.
Proof.
  revert st. induction xs as [|y xs IH]; intros st H x Hx; [destruct Hx|].
  cbn [for_each] in H. apply bind_ok in H as (st1 & Hy & Hrest).
  destruct Hx as [<-|Hx]; [now exists st, st1 | now apply (IH st1)].
Qed.

Lemma for_each_Raise_some {A S : Type} (body : S -> A -> result S)
  (xs : list A) (st : S) (e : exn) :
  for_each body xs st = Raise e ->
  exists x s, In x xs /\ body s x = Raise e.
Proof.
  revert st. induction xs as [|y xs IH]; intros st H; [discriminate H|].
  cbn [for_each] in H. destruct (body st y) as [st1|e1] eqn:Hy; cbn [bind] in H.
  - destruct (IH st1 H) as (x & s & Hx & Hb). exists x, s.
    split; [now right | exact Hb].
  - exists y, st. split; [now left | congruence].
Qed.

(* ================================================================== *)
(** ** [subword_labeler] *)

Lemma tags_loop_Ok (counts : list Z) (tags : list string) (k : nat)
  (acc res : list string) :
  for_each (tag_step counts) (combine (seq k (length tags)) tags) acc = Ok res ->
  tags = [] \/ k + length tags <= length counts.
Proof.
  revert k acc. induction tags as [|tag tags IH]; intros k acc H; [now left|].
  right. cbn [length seq combine for_each] in H.
  apply bind_ok in H as (acc1 & Hstep & Hrest).
  unfold tag_step, getitem in Hstep.
  destruct (nth_error counts k) as [n|] eqn:Hk; [|discriminate Hstep].
  assert (Hlt : k < length counts)
    by (apply nth_error_Some; congruence).
  destruct (IH _ _ Hrest) as [->|Hle]; cbn [length]; lia.
Qed.

Lemma tag_step_raise (counts : list Z) (acc : list string)
  (item : nat * string) (e : exn) :
  tag_step counts acc item = Raise e -> e = IndexError.
Proof.
  destruct item as [i tag]. unfold tag_step, getitem.
  destruct (nth_error counts i); cbn [bind]; congruence.
Qed.

Section SubwordLoop.
Variable tokenizer : list string -> list Z.

Lemma logs_loop_total (pairs : list (string * list string))
  (acc : list (list string)) :
  (forall log tags, In (log, tags) pairs ->
     length tags <= length (tokenizer (split log))) ->
  for_each
    (fun subword_labels '(log, tags) =>
       temp_tags <- for_each (tag_step (tokenizer (split log)))
                      (enumerate tags) [] ;;
       Ok (subword_labels ++ [temp_tags]))
    pairs acc
  = Ok (acc ++ map (fun '(log, tags) =>
                      with_pieces tags (tokenizer (split log))) pairs).
Proof.
  revert acc. induction pairs as [|[log tags] pairs IH]; intros acc Hle.
  - cbn. now rewrite app_nil_r.
  - cbn [for_each map]. unfold enumerate.
    rewrite tags_loop by (cbn; apply (Hle log tags); now left).
    cbn [bind skipn app].
    rewrite IH by (intros l t H; apply Hle; now right).
    now rewrite <- app_assoc.
Qed.
End SubwordLoop.

(** X11.  [subword_labeler] pairs the logs with the tag lists as far as
    both go.  It returns exactly when, for every pair, the tokenizer
    reports at least as many counts as there are tags; the output is then
    one sequence per pair, every tag followed by as many ['X'] as its count
    says (none for a negative count), and counts beyond the tags are not
    used.  The only exception it raises is [IndexError]. *)
Theorem subword_labeler_returns_iff (tokenizer : list string -> list Z)
  (log_list : list string) (label_list : list (list string)) :
  ((exists subword_labels,
      subword_labeler tokenizer log_list label_list = Ok subword_labels) <->
   forall log tags, In (log, tags) (combine log_list label_list) ->
     length tags <= length (tokenizer (split log))) /\
  (forall subword_labels,
     subword_labeler tokenizer log_list label_list = Ok subword_labels ->
     subword_labels
     = map (fun '(log, tags) =>
              flat_map (fun '(tag, n) => tag :: repeat "X" (Z.to_nat n))
                (combine tags (tokenizer (split log))))
         (combine log_list label_list) /\
     length subword_labels = Nat.min (length log_list) (length label_list)) /\
  (forall e, subword_labeler tokenizer log_list label_list = Raise e ->
             e = IndexError).
Proof.
  assert (Hnec : forall out,
            subword_labeler tokenizer log_list label_list = Ok out ->
            forall log tags, In (log, tags) (combine log_list label_list) ->
              length tags <= length (tokenizer (split log))).
  { intros out H log tags Hin. unfold subword_labeler in H.
    destruct (for_each_Ok_each _ _ _ H _ Hin) as (s & s' & Hbody).
    cbn beta iota in Hbody. apply bind_ok in Hbody as (temp & Htemp & _).
    unfold enumerate in Htemp. apply tags_loop_Ok in Htemp as [->|Hle];
      [cbn; lia | lia]. }
  split; [split|split].
  - intros [out H]. exact (Hnec out H).
  - intros Hle. eexists. unfold subword_labeler.
    now rewrite logs_loop_total.
  - intros out H. pose proof (Hnec out H) as Hle.
    unfold subword_labeler in H. rewrite logs_loop_total in H by exact Hle.
    apply Ok_inj in H. subst out. cbn [app]. split; [reflexivity|].
    now rewrite length_map, length_combine.
  - intros e H. unfold subword_labeler in H.
    apply for_each_Raise_some in H as ([log tags] & s & _ & Hbody).
    cbn beta iota in Hbody.
    destruct (for_each (tag_step (tokenizer (split log))) (enumerate tags) [])
      as [temp|e1] eqn:Hloop; cbn [bind] in Hbody; [discriminate Hbody|].
    apply for_each_Raise_some in Hloop as (item & acc & _ & Hstep).
    apply tag_step_raise in Hstep. congruence.
Qed.

(* ================================================================== *)
(** ** Padding and the integer labels *)

(** X12.  [pad] gives a list of length [max(len(l), width)] that starts
    with [l] and holds [content] at every later position; padding a padded
    list again changes nothing. *)
Theorem pad_length_idempotent (A : Type) (l : list A) (content : A)
  (width : Z) :
  length (pad l content width) = Nat.max (length l) (Z.to_nat width) /\
  firstn (length l) (pad l content width) = l /\
  (forall j, length l <= j < Z.to_nat width ->
     nth_error (pad l content width) j = Some content) /\
  pad (pad l content width) content width = pad l content width.
Proof.
  unfold pad, times. repeat split.
  - rewrite length_app, repeat_length. lia.
  - rewrite firstn_app, Nat.sub_diag, firstn_all. cbn [firstn].
    apply app_nil_r.
  - intros j Hj. rewrite nth_error_app2 by lia.
    apply nth_error_repeat. lia.
  - rewrite length_app, repeat_length.
    replace (Z.to_nat
               (width
                - Z.of_nat
                    (length l + Z.to_nat (width - Z.of_nat (length l)))))
      with 0 by lia.
    apply app_nil_r.
Qed.

Lemma label_items_positive (label_values : list string) (t : string) (i : Z) :
  NoDup label_values -> ~ In "[PAD]" label_values -> ~ In "X" label_values ->
  dict_get String.eqb (label_items label_values) t = Some i ->
  t <> "[PAD]" -> t <> "X" -> (0 < i)%Z.
Proof.
  intros Hnd Hpad HX Hi Ht1 Ht2.
  apply (dict_get_In String.eqb String.eqb_eq) in Hi.
  pose proof (@label_items_nonneg _ _ _ Hi Ht2) as Hge.
  destruct (Z.eq_dec i 0) as [->|Hne]; [|lia].
  exfalso. apply Ht1.
  apply (@nodup_snd_inj _ _ (label_items label_values) t "[PAD]" 0%Z);
    [apply NoDup_values_label_items | exact Hi | now left].
Qed.

Lemma nth_error_padded (x : list string) (j : nat) :
  j < 512 ->
  nth_error (pad (slice x 0 512) "[PAD]" 512%Z) j
  = Some (match nth_error x j with Some lab => lab | None => "[PAD]" end).
Proof.
  intros Hj. unfold pad, slice, times. replace (512 - 0) with 512 by lia.
  cbn [skipn]. rewrite length_firstn.
  destruct (nth_error x j) as [lab|] eqn:Hx.
  - assert (j < length x) by (apply nth_error_Some; congruence).
    rewrite nth_error_app1 by (rewrite length_firstn; lia).
    rewrite nth_error_firstn.
    now destruct (Nat.ltb_spec j 512); [|lia].
  - apply nth_error_None in Hx.
    rewrite nth_error_app2 by (rewrite length_firstn; lia).
    apply nth_error_repeat. rewrite length_firstn. lia.
Qed.

(** X13.  In a row of [int_labels] a position past the end of the subword
    labels holds 0, the id of ['[PAD]']; a position of a subword piece
    holds -100; and a position of a label holds a positive id.  Labels
    past position 511 are dropped. *)
Theorem int_labels_ids (logs_df : list row) (cols : list string)
  (tokenizer : list string -> list Z) (log_list : list string)
  (labels subword_labels : list (list string)) (label_values : list string)
  (k : nat) (x : list string) :
  all_labels logs_df cols = Ok labels ->
  list_of_set (concat labels) label_values ->
  subword_labeler tokenizer log_list labels = Ok subword_labels ->
  nth_error subword_labels k = Some x ->
  exists ids,
    nth_error (int_labels (label2id label_values)
                 (padded_labels subword_labels)) k = Some ids /\
    length ids = 512 /\
    forall j, j < 512 ->
      (length x <= j -> nth_error ids j = Some (Some 0%Z)) /\
      (nth_error x j = Some "X" -> nth_error ids j = Some (Some (-100)%Z)) /\
      (forall lab, nth_error x j = Some lab -> lab <> "X" ->
         exists n, nth_error ids j = Some (Some n) /\ (0 < n)%Z).
Proof.
  intros Hlabels [Hnd Hset] Hsub Hx.
  assert (Hshape : forall lab, In lab label_values ->
                     lab <> "[PAD]" /\ lab <> "X").
  { intros lab Hin. apply Hset in Hin.
    exact (@all_labels_shape _ _ _ _ Hlabels Hin). }
  assert (Hpad : ~ In "[PAD]" label_values)
    by (intros Hin; now destruct (Hshape _ Hin)).
  assert (HX : ~ In "X" label_values)
    by (intros Hin; now destruct (Hshape _ Hin)).
  pose proof (@NoDup_keys_label_items _ Hnd Hpad HX) as Hkeys.
  exists (map (fun l => dict_get String.eqb (label2id label_values) l)
            (pad (slice x 0 512) "[PAD]" 512%Z)).
  split; [|split].
  - unfold int_labels, padded_labels. now rewrite !nth_error_map, Hx.
  - rewrite length_map. apply length_padded.
  - intros j Hj. rewrite nth_error_map, (nth_error_padded x Hj).
    cbn [option_map]. rewrite (@label2id_items _ Hnd Hpad HX).
    split; [|split].
    + intros Hle. apply nth_error_None in Hle. now rewrite Hle.
    + intros E. rewrite E. do 2 f_equal.
      apply (In_dict_get String.eqb String.eqb_eq); [exact Hkeys|].
      unfold label_items. apply in_or_app. right. now left.
    + intros lab E HnX. rewrite E.
      destruct (@subword_labeler_members _ _ _ _ Hsub x lab) as [Hc|];
        [now apply nth_error_In in Hx | now apply nth_error_In in E
        | | contradiction].
      destruct (dict_get_key String.eqb String.eqb_eq
                  (label_items label_values) lab) as [n Hn].
      { rewrite keys_label_items. right. apply in_or_app. left.
        now apply Hset. }
      exists n. split; [now rewrite Hn|].
      apply (@label_items_positive label_values lab n); try assumption.
      now destruct (@all_labels_shape _ _ _ _ Hlabels Hc).
Qed.

Lemma int_labels_ids_witness :
  exists ids,
    nth_error (int_labels
                 (label2id (nodup string_dec (concat [["O"; "B-t"]])))
                 (padded_labels [["O"; "X"; "B-t"]])) 0
    = Some ids /\
    length ids = 512 /\
    forall j, j < 512 ->
      (length ["O"; "X"; "B-t"] <= j -> nth_error ids j = Some (Some 0%Z)) /\
      (nth_error ["O"; "X"; "B-t"] j = Some "X" ->
       nth_error ids j = Some (Some (-100)%Z)) /\
      (forall lab, nth_error ["O"; "X"; "B-t"] j = Some lab -> lab <> "X" ->
         exists n, nth_error ids j = Some (Some n) /\ (0 < n)%Z).
Proof.
  apply (@int_labels_ids
           [mk_row "ab c" (fun col => if String.eqb col "t" then "c" else "-")]
           ["t"] sample_tokenizer ["ab c"] [["O"; "B-t"]] [["O"; "X"; "B-t"]]
           (nodup string_dec (concat [["O"; "B-t"]])) 0).
  - vm_compute. reflexivity.
  - apply nodup_list_of_set.
  - vm_compute. reflexivity.
  - reflexivity.
Defined.


(* ================================================================== *)
(** ** The label dictionary and the classes of the model *)

Lemma in_values_label_items (label_values : list string) (i : Z) :
  In i (map snd (label_items label_values)) <->
  (0 <= i < Z.of_nat (length label_values) + 1)%Z \/ i = (-100)%Z.
Proof.
  rewrite values_label_items, in_app_iff, in_map_iff. cbn [In]. split.
  - intros [(n & <- & Hn)|[<-|[]]]; [left | now right].
    apply in_seq in Hn. lia.
  - intros [Hi | ->]; [left | right; now left].
    exists (Z.to_nat i). split; [lia|]. apply in_seq. lia.
Qed.

Lemma id2label_keys (logs_df : list row) (cols : list string)
  (labels : list (list string)) (label_values : list string) :
  all_labels logs_df cols = Ok labels ->
  list_of_set (concat labels) label_values ->
  length (label2id label_values) = length label_values + 2 /\
  exists inverse,
    id2label (label2id label_values) = Ok inverse /\
    (forall i,
       (exists t, dict_get Z.eqb inverse i = Some t) <->
       (0 <= i < Z.of_nat (length (label2id label_values)) - 1)%Z \/
       i = (-100)%Z) /\
    dict_get Z.eqb inverse
      (Z.of_nat (length (label2id label_values)) - 1)%Z
    = None.
Proof.
  intros Hlabels [Hnd Hset].
  assert (Hpad : ~ In "[PAD]" label_values).
  { intros Hin. apply Hset in Hin.
    now destruct (@all_labels_shape _ _ _ _ Hlabels Hin). }
  assert (HX : ~ In "X" label_values).
  { intros Hin. apply Hset in Hin.
    now destruct (@all_labels_shape _ _ _ _ Hlabels Hin). }
  rewrite (@label2id_items _ Hnd Hpad HX).
  pose proof (@NoDup_keys_label_items _ Hnd Hpad HX) as Hkeys.
  pose proof (NoDup_values_label_items label_values) as Hvals.
  assert (Hlen : length (label_items label_values) = length label_values + 2).
  { rewrite <- (length_map fst). fold (keys (label_items label_values)).
    rewrite keys_label_items. cbn [length]. rewrite length_app. cbn. lia. }
  split; [exact Hlen|].
  exists (map swap (label_items label_values)).
  assert (Hcover : forall i,
            (exists t, dict_get Z.eqb (map swap (label_items label_values)) i
                       = Some t) <->
            (0 <= i < Z.of_nat (length (label_items label_values)) - 1)%Z \/
            i = (-100)%Z).
  { intros i. rewrite Hlen.
    replace (Z.of_nat (length label_values + 2) - 1)%Z
      with (Z.of_nat (length label_values) + 1)%Z by lia.
    rewrite <- in_values_label_items. split.
    - intros [t Ht]. apply (dict_get_In Z.eqb Z.eqb_eq) in Ht.
      apply in_map_iff in Ht as ([t' i'] & E & Hin). inversion E. subst.
      apply in_map_iff. now exists (t, i).
    - intros Hin. apply (dict_get_key Z.eqb Z.eqb_eq).
      unfold keys. now rewrite map_map. }
  split; [now apply id2label_swap|]. split; [exact Hcover|].
  destruct (dict_get Z.eqb (map swap (label_items label_values))
              (Z.of_nat (length (label_items label_values)) - 1)%Z)
    as [t|] eqn:E;
    [|reflexivity].
  assert (Hex : exists t, dict_get Z.eqb (map swap (label_items label_values))
                    (Z.of_nat (length (label_items label_values)) - 1)%Z
                  = Some t) by (now exists t).
  apply Hcover in Hex. lia.
Qed.

(** X14.  The model is built with [num_labels = len(label2id)], the number
    of labels plus two, so its classes are the ids from 0 to
    [len(label2id) - 1].  [id2label] has an entry for the ids up to
    [len(label2id) - 2] and for -100, and for no other id: the last class
    has no label. *)
Theorem id2label_coverage (logs_df : list row) (cols : list string)
  (labels : list (list string)) (label_values : list string) :
  all_labels logs_df cols = Ok labels ->
  list_of_set (concat labels) label_values ->
  length (label2id label_values) = length label_values + 2 /\
  exists inverse,
    id2label (label2id label_values) = Ok inverse /\
    (forall i,
       (exists t, dict_get Z.eqb inverse i = Some t) <->
       (0 <= i < Z.of_nat (length (label2id label_values)) - 1)%Z \/
       i = (-100)%Z) /\
    dict_get Z.eqb inverse
      (Z.of_nat (length (label2id label_values)) - 1)%Z
    = None.
Proof. apply id2label_keys. Qed.

Lemma id2label_coverage_witness :
  length (label2id (nodup string_dec (concat [sample_labels])))
  = length (nodup string_dec (concat [sample_labels])) + 2 /\
  exists inverse,
    id2label (label2id (nodup string_dec (concat [sample_labels])))
    = Ok inverse /\
    (forall i,
       (exists t, dict_get Z.eqb inverse i = Some t) <->
       (0 <= i
        < Z.of_nat
            (length (label2id (nodup string_dec (concat [sample_labels]))))
          - 1)%Z \/
       i = (-100)%Z) /\
    dict_get Z.eqb inverse
      (Z.of_nat
         (length (label2id (nodup string_dec (concat [sample_labels]))))
       - 1)%Z
    = None.
Proof.
  apply (@id2label_coverage sample_df sample_cols [sample_labels]
           (nodup string_dec (concat [sample_labels]))).
  - vm_compute. reflexivity.
  - apply nodup_list_of_set.
Defined.

(* ================================================================== *)
(** ** The evaluation loop *)

Lemma in_combine_seq_intro {A : Type} (l : list A) (k i : nat) (x : A) :
  nth_error l i = Some x -> In (k + i, x) (combine (seq k (length l)) l).
Proof.
  revert k i. induction l as [|y l IH]; intros k [|i] H; try discriminate H.
  - cbn in H. apply Ok_inj_some in H. subst. rewrite Nat.add_0_r. now left.
  - cbn [length seq combine]. right.
    replace (k + S i) with (S k + i) by lia. now apply IH.
Qed.

Lemma in_enumerate_intro {A : Type} (l : list A) (i : nat) (x : A) :
  nth_error l i = Some x -> In (i, x) (enumerate l).
Proof. intros H. apply (in_combine_seq_intro l 0 i H). Qed.

Lemma cell_at_nth (rows : list (list Z)) (i j : nat) (v : Z) :
  cell_at rows i j = Ok v -> nth j (nth i rows []) 0%Z = v.
Proof.
  unfold cell_at, getitem. intros H.
  destruct (nth_error rows i) as [row|] eqn:Hi; [|discriminate H].
  cbn [bind] in H.
  destruct (nth_error row j) as [v'|] eqn:Hj; [|discriminate H].
  apply Ok_inj in H. subst v'.
  rewrite (nth_error_nth _ _ [] Hi). apply (nth_error_nth _ _ _ Hj).
Qed.

Section EvaluationRun.
Variable id2label : dict Z string.

(** What a step that does not raise has read and done. *)
Lemma token_step_Ok (L P : list (list Z)) (i j : nat)
  (temps temps' : list string * list string) :
  token_step id2label L P i j temps = Ok temps' ->
  exists label_id label,
    cell_at L i j = Ok label_id /\
    dict_get Z.eqb id2label label_id = Some label /\
    if kept label then
      exists logit pred,
        cell_at P i j = Ok logit /\
        dict_get Z.eqb id2label logit = Some pred /\
        temps' = (fst temps ++ [label], snd temps ++ [pred])
    else temps' = temps.
Proof.
  unfold token_step, dict_getitem. intros H.
  apply bind_ok in H as (label_id & Hl & H).
  destruct (dict_get Z.eqb id2label label_id) as [label|] eqn:Hlab;
    [|discriminate H].
  cbn [bind] in H. exists label_id, label.
  split; [exact Hl|]. split; [exact Hlab|].
  fold (kept label) in H. destruct (kept label).
  - apply bind_ok in H as (logit & Hp & H).
    destruct (dict_get Z.eqb id2label logit) as [pred|] eqn:Hpred;
      [|discriminate H].
    cbn [bind] in H. apply Ok_inj in H.
    exists logit, pred. split; [exact Hp|]. split; [exact Hpred | now symmetry].
  - apply Ok_inj in H. now symmetry.
Qed.

Lemma compare_tokens_run (L P : list (list Z)) (i : nat) (mask : list Z)
  (k : nat) (temps temps' : list string * list string) :
  compare_tokens id2label L P i (combine (seq k (length mask)) mask) temps
  = Ok temps' ->
  (forall j, k <= j < k + length (live_prefix mask) ->
     exists label_id label,
       cell_at L i j = Ok label_id /\
       dict_get Z.eqb id2label label_id = Some label /\
       (kept label = true ->
        exists logit pred,
          cell_at P i j = Ok logit /\
          dict_get Z.eqb id2label logit = Some pred)) /\
  fst temps'
  = fst temps
    ++ names_at id2label (nth i L [])
         (filter (fun j => kept (label_name id2label (nth j (nth i L []) 0%Z)))
            (seq k (length (live_prefix mask)))) /\
  snd temps'
  = snd temps
    ++ names_at id2label (nth i P [])
         (filter (fun j => kept (label_name id2label (nth j (nth i L []) 0%Z)))
            (seq k (length (live_prefix mask)))).
Proof.
  revert k temps. induction mask as [|m mask IH]; intros k temps H.
  - cbn in H. apply Ok_inj in H. subst temps'. cbn.
    rewrite !app_nil_r. repeat split. intros j Hj. lia.
  - cbn [length seq combine] in H. rewrite compare_tokens_cons in H.
    cbn [live_prefix]. destruct (Z.eqb m 0) eqn:Hm; cbn [negb] in H.
    + apply Ok_inj in H. subst temps'. cbn.
      rewrite !app_nil_r. repeat split. intros j Hj. lia.
    + apply bind_ok in H as (t1 & Hstep & Hrest).
      apply IH in Hrest as (Hread & Hfst & Hsnd).
      apply token_step_Ok in Hstep
        as (label_id & label & Hl & Hlab & Hkept).
      assert (Hname : label_name id2label (nth k (nth i L []) 0%Z) = label).
      { unfold label_name. now rewrite (cell_at_nth _ _ _ Hl), Hlab. }
      cbn [length seq filter]. rewrite Hname. split; [|].
      * intros j Hj. destruct (Nat.eq_dec j k) as [->|Hne];
          [|apply Hread; lia].
        exists label_id, label. split; [exact Hl|]. split; [exact Hlab|].
        intros Hk. rewrite Hk in Hkept.
        destruct Hkept as (logit & pred & Hp & Hpred & _).
        now exists logit, pred.
      * destruct (kept label).
        -- destruct Hkept as (logit & pred & Hp & Hpred & ->).
           cbn [fst snd] in Hfst, Hsnd. unfold names_at in *. cbn [map].
           rewrite Hname. unfold label_name at 3.
           rewrite (cell_at_nth _ _ _ Hp), Hpred.
           rewrite Hfst, Hsnd, <- !app_assoc. now split.
        -- subst t1. now split.
Qed.

Lemma rows_loop_run (L P : list (list Z)) (items : list (nat * list Z))
  (ys ys' : list (list string) * list (list string)) :
  for_each
    (fun ys '(i, mask) =>
       temps <- compare_tokens id2label L P i (enumerate mask) ([], []) ;;
       Ok (fst ys ++ [fst temps], snd ys ++ [snd temps]))
    items ys = Ok ys' ->
  fst ys'
  = fst ys
    ++ map (fun '(i, mask) =>
              names_at id2label (nth i L [])
                (compared id2label mask (nth i L []))) items /\
  snd ys'
  = snd ys
    ++ map (fun '(i, mask) =>
              names_at id2label (nth i P [])
                (compared id2label mask (nth i L []))) items.
Proof.
  revert ys. induction items as [|[i mask] items IH]; intros ys H.
  - cbn in H. apply Ok_inj in H. subst ys'. cbn. now rewrite !app_nil_r.
  - cbn [for_each] in H. apply bind_ok in H as (ys1 & Hstep & Hrest).
    apply bind_ok in Hstep as (temps & Htemps & E).
    apply Ok_inj in E. subst ys1.
    apply compare_tokens_run in Htemps as (_ & Hfst & Hsnd).
    cbn [fst snd app] in Hfst, Hsnd.
    apply IH in Hrest as [H1 H2]. cbn [fst snd] in H1, H2.
    cbn [map]. unfold compared. rewrite H1, H2, Hfst, Hsnd, <- !app_assoc.
    now split.
Qed.

Lemma batches_loop_run (batches : list batch)
  (ys ys' : list (list string) * list (list string)) :
  for_each (eval_batch id2label) batches ys = Ok ys' ->
  fst ys'
  = fst ys
    ++ flat_map
         (fun b =>
            map (fun '(i, mask) =>
                   names_at id2label (nth i (label_ids b) [])
                     (compared id2label mask (nth i (label_ids b) [])))
              (enumerate (input_mask b))) batches /\
  snd ys'
  = snd ys
    ++ flat_map
         (fun b =>
            map (fun '(i, mask) =>
                   names_at id2label (nth i (logits b) [])
                     (compared id2label mask (nth i (label_ids b) [])))
              (enumerate (input_mask b))) batches.
Proof.
  revert ys. induction batches as [|b batches IH]; intros ys H.
  - cbn in H. apply Ok_inj in H. subst ys'. cbn. now rewrite !app_nil_r.
  - cbn [for_each] in H. apply bind_ok in H as (ys1 & Hb & Hrest).
    unfold eval_batch in Hb. apply rows_loop_run in Hb as [H1 H2].
    apply IH in Hrest as [H3 H4].
    cbn [flat_map]. rewrite H3, H4, H1, H2, <- !app_assoc. now split.
Qed.
End EvaluationRun.

Lemma evaluation_reads (id2label : dict Z string) (batches : list batch)
  (y_true y_pred : list (list string)) (b : batch) (i j : nat)
  (mask : list Z) :
  evaluation id2label batches = Ok (y_true, y_pred) ->
  In b batches ->
  nth_error (input_mask b) i = Some mask ->
  j < length (live_prefix mask) ->
  exists label_id label,
    cell_at (label_ids b) i j = Ok label_id /\
    dict_get Z.eqb id2label label_id = Some label /\
    (kept label = true ->
     exists logit pred,
       cell_at (logits b) i j = Ok logit /\
       dict_get Z.eqb id2label logit = Some pred).
Proof.
  intros H Hb Hmask Hj. unfold evaluation in H.
  destruct (for_each_Ok_each _ _ _ H _ Hb) as (ys & ys1 & Hbatch).
  unfold eval_batch in Hbatch.
  destruct (for_each_Ok_each _ _ _ Hbatch _ (in_enumerate_intro _ _ Hmask))
    as (s & s' & Hrow).
  cbn beta iota in Hrow. apply bind_ok in Hrow as (temps & Htemps & _).
  unfold enumerate in Htemps.
  apply compare_tokens_run in Htemps as (Hread & _).
  apply Hread. lia.
Qed.

(** X15.  The loop returns only if it can name everything it reads: every
    position before the first zero of a mask has a label id that is a key
    of [id2label], and where that label is neither ['X'] nor ['[PAD]'] the
    prediction at the position is a key as well. *)
Theorem evaluation_reads_known_ids (id2label : dict Z string)
  (batches : list batch) (y_true y_pred : list (list string)) (b : batch)
  (i j : nat) (mask : list Z) :
  evaluation id2label batches = Ok (y_true, y_pred) ->
  In b batches ->
  nth_error (input_mask b) i = Some mask ->
  j < length (live_prefix mask) ->
  exists label_id label,
    cell_at (label_ids b) i j = Ok label_id /\
    dict_get Z.eqb id2label label_id = Some label /\
    (label <> "X" -> label <> "[PAD]" ->
     exists logit pred,
       cell_at (logits b) i j = Ok logit /\
       dict_get Z.eqb id2label logit = Some pred).
Proof.
  intros H Hb Hmask Hj.
  destruct (evaluation_reads _ _ _ _ H Hb Hmask Hj)
    as (label_id & label & Hl & Hlab & Hpred).
  exists label_id, label. split; [exact Hl|]. split; [exact Hlab|].
  intros HX Hpad. apply Hpred. unfold kept.
  destruct (String.eqb_spec label "X"); [contradiction|].
  destruct (String.eqb_spec label "[PAD]"); [contradiction | reflexivity].
Qed.

Lemma evaluation_reads_known_ids_witness :
  exists label_id label,
    cell_at (label_ids (mk_batch [[1; 1; 1; 0; 1]%Z] [[1; -100; 2; 0; 1]%Z]
                          [[2; 2; 1; 1; 7]%Z])) 0 2 = Ok label_id /\
    dict_get Z.eqb sample_id2label label_id = Some label /\
    (label <> "X" -> label <> "[PAD]" ->
     exists logit pred,
       cell_at (logits (mk_batch [[1; 1; 1; 0; 1]%Z] [[1; -100; 2; 0; 1]%Z]
                          [[2; 2; 1; 1; 7]%Z])) 0 2 = Ok logit /\
       dict_get Z.eqb sample_id2label logit = Some pred).
Proof.
  apply (@evaluation_reads_known_ids sample_id2label sample_batches
           [["O"; "B-t"]] [["B-t"; "O"]]
           (mk_batch [[1; 1; 1; 0; 1]%Z] [[1; -100; 2; 0; 1]%Z]
              [[2; 2; 1; 1; 7]%Z]) 0 2 [1; 1; 1; 0; 1]%Z).
  - vm_compute. reflexivity.
  - now left.
  - reflexivity.
  - vm_compute. lia.
Defined.

(** X16.  With the dictionaries of the notebook the loop cannot finish when
    the model answers with its last class, [len(label2id) - 1], at a
    position it compares: that class has no entry in [id2label], and the
    loop raises. *)
Theorem evaluation_last_class_raises (logs_df : list row)
  (cols : list string) (labels : list (list string))
  (label_values : list string) (inverse : dict Z string)
  (batches : list batch) (b : batch) (i j : nat) (mask : list Z)
  (label_id : Z) (label : string) :
  all_labels logs_df cols = Ok labels ->
  list_of_set (concat labels) label_values ->
  id2label (label2id label_values) = Ok inverse ->
  In b batches ->
  nth_error (input_mask b) i = Some mask ->
  j < length (live_prefix mask) ->
  cell_at (label_ids b) i j = Ok label_id ->
  dict_get Z.eqb inverse label_id = Some label ->
  label <> "X" -> label <> "[PAD]" ->
  cell_at (logits b) i j
  = Ok (Z.of_nat (length (label2id label_values)) - 1)%Z ->
  exists e, evaluation inverse batches = Raise e.
Proof.
  intros Hlabels Hset Hinv Hb Hmask Hj Hl Hlab HX Hpad Hlogit.
  destruct (id2label_keys _ _ Hlabels Hset) as (_ & inv & Hinv' & _ & Hnone).
  assert (inv = inverse) by congruence. subst inv.
  destruct (evaluation inverse batches) as [[y_true y_pred]|e] eqn:E;
    [exfalso | now exists e].
  destruct (evaluation_reads _ _ _ _ E Hb Hmask Hj)
    as (label_id' & label' & Hl' & Hlab' & Hpred).
  assert (label_id' = label_id) by congruence. subst label_id'.
  assert (label' = label) by congruence. subst label'.
  destruct Hpred as (logit & pred & Hp & Hpred).
  { unfold kept.
    destruct (String.eqb_spec label "X"); [contradiction|].
    destruct (String.eqb_spec label "[PAD]"); [contradiction | reflexivity]. }
  congruence.
Qed.

Lemma evaluation_last_class_raises_witness :
  exists e,
    evaluation
      [(0%Z, "[PAD]"); (1%Z, "B-time"); (2%Z, "I-time"); (3%Z, "O");
       (4%Z, "B-name"); (5%Z, "I-name"); (6%Z, "B-type"); ((-100)%Z, "X")]
      [mk_batch [[1; 1]%Z] [[3; 1]%Z] [[3; 7]%Z]]
    = Raise e.
Proof.
  apply (@evaluation_last_class_raises sample_df sample_cols [sample_labels]
           (nodup string_dec (concat [sample_labels]))
           [(0%Z, "[PAD]"); (1%Z, "B-time"); (2%Z, "I-time"); (3%Z, "O");
            (4%Z, "B-name"); (5%Z, "I-name"); (6%Z, "B-type");
            ((-100)%Z, "X")]
           [mk_batch [[1; 1]%Z] [[3; 1]%Z] [[3; 7]%Z]]
           (mk_batch [[1; 1]%Z] [[3; 1]%Z] [[3; 7]%Z]) 0 1 [1; 1]%Z
           1%Z "B-time").
  - vm_compute. reflexivity.
  - apply nodup_list_of_set.
  - vm_compute. reflexivity.
  - now left.
  - reflexivity.
  - vm_compute. lia.
  - reflexivity.
  - reflexivity.
  - discriminate.
  - discriminate.
  - vm_compute. reflexivity.
Defined.

(** X17.  When the loop returns, [y_true] holds for every mask row the
    labels at the compared positions, in order, and [y_pred] the
    predictions at the same positions; the compared positions of a row are
    those before the first zero of its mask whose label is neither ['X']
    nor ['[PAD]']. *)
Theorem evaluation_sequences (id2label : dict Z string)
  (batches : list batch) (y_true y_pred : list (list string)) :
  evaluation id2label batches = Ok (y_true, y_pred) ->
  y_true
  = flat_map
      (fun b =>
         map (fun '(i, mask) =>
                names_at id2label (nth i (label_ids b) [])
                  (compared id2label mask (nth i (label_ids b) [])))
           (enumerate (input_mask b))) batches /\
  y_pred
  = flat_map
      (fun b =>
         map (fun '(i, mask) =>
                names_at id2label (nth i (logits b) [])
                  (compared id2label mask (nth i (label_ids b) [])))
           (enumerate (input_mask b))) batches.
Proof.
  intros H. unfold evaluation in H.
  apply batches_loop_run in H. exact H.
Qed.

Lemma evaluation_sequences_witness :
  [["O"; "B-t"]]
  = flat_map
      (fun b =>
         map (fun '(i, mask) =>
                names_at sample_id2label (nth i (label_ids b) [])
                  (compared sample_id2label mask (nth i (label_ids b) [])))
           (enumerate (input_mask b))) sample_batches /\
  [["B-t"; "O"]]
  = flat_map
      (fun b =>
         map (fun '(i, mask) =>
                names_at sample_id2label (nth i (logits b) [])
                  (compared sample_id2label mask (nth i (label_ids b) [])))
           (enumerate (input_mask b))) sample_batches.
Proof.
  apply (@evaluation_sequences sample_id2label sample_batches
           [["O"; "B-t"]] [["B-t"; "O"]]).
  vm_compute. reflexivity.
Defined.



